(** * An in-memory book registry behind an HTTP front: [main.go]

    The program keeps a map from ids to books and a counter [nextID] as
    package-level variables, guarded by one mutex, and exposes five handlers
    ([CreateBook], [GetBooks], [GetBook], [UpdateBook], [DeleteBook]) that
    [main] wires to the paths [/books] and [/books/].

    Every handler touches [books] and [nextID] only between one [mu.Lock()]
    and the matching [mu.Unlock()], and whatever it does outside that region
    uses request-local values.  A handler is therefore one atomic transition
    of the shared state, and a concurrent execution of the server is a
    sequence of such transitions in the order in which the lock was taken.
    The development models exactly that: a handler is a function from the
    shared state to the new shared state and the response it wrote. *)

From Stdlib Require Import ZArith String Ascii List Lia.
From stdpp Require Import gmap strings list list_numbers fin_maps.

Local Open Scope Z_scope.

(** ** Go's [int]

    [int] is a signed two's-complement integer of [intSize] bits, 32 or 64
    depending on the platform the program is built for.  Arithmetic on it
    wraps around silently. *)

Definition valid_intSize (intSize : Z) : Prop := intSize = 32 ∨ intSize = 64.

Definition MinInt (intSize : Z) : Z := - 2 ^ (intSize - 1).
Definition MaxInt (intSize : Z) : Z := 2 ^ (intSize - 1) - 1.

Definition wrap (intSize : Z) (z : Z) : Z :=
  (z + 2 ^ (intSize - 1)) mod 2 ^ intSize - 2 ^ (intSize - 1).

Definition fits (intSize : Z) (z : Z) : bool :=
  (MinInt intSize <=? z) && (z <=? MaxInt intSize).

(** ** Memory

    The records of the map lie in the address space of the process, which
    has [2 ^ intSize] bytes.  An entry of [map[int]Book] takes six words at
    least: one for the key, one for [ID] and two for each string header.
    [addressable capacity] says that [capacity] entries fit. *)

Definition entryBytes (intSize : Z) : Z := 6 * (intSize / 8).

Definition addressable (intSize : Z) (capacity : nat) : Prop :=
  Z.of_nat capacity * entryBytes intSize ≤ 2 ^ intSize.

(** ** Data *)

(** [type Book struct { ID int; Title string; Author string }] *)
Record Book : Type := mkBook { ID : Z; Title : string; Author : string }.

(** The value of [var book Book]. *)
Definition zeroBook : Book := {| ID := 0; Title := ""; Author := "" |}.

Definition set_ID (id : Z) (b : Book) : Book :=
  {| ID := id; Title := Title b; Author := Author b |}.

(** The package-level variables [books] and [nextID]. *)
Record Registry : Type := mkRegistry { books : gmap Z Book; nextID : Z }.

(** [books = make(map[int]Book)], [nextID = 1]. *)
Definition initial : Registry := {| books := ∅; nextID := 1 |}.

(** What a handler reads of [*http.Request]. *)
Record Request : Type := mkRequest { Method : string; Path : string; Body : string }.

(** A Go slice of books: [None] is the nil slice. *)
Definition slice : Type := option (list Book).

Definition append (s : slice) (b : Book) : slice :=
  match s with
  | None => Some [b]
  | Some l => Some (l ++ [b])
  end.

(** The values handed to [sendJSON] as [data interface{}]. *)
Inductive GoValue : Type :=
| VBook (b : Book)
| VBooks (s : slice).

(** JSON documents, as trees. *)
#[local] Unset Elimination Schemes.
Inductive json : Type :=
| JNull
| JNum (n : Z)
| JStr (s : string)
| JArr (elems : list json)
| JObj (fields : list (string * json)).
#[local] Set Elimination Schemes.

(** [encoding/json] on a [Book]: an object with the fields in declaration
    order under their [json:] tags. *)
Definition marshalBook (b : Book) : json :=
  JObj [("id", JNum (ID b)); ("title", JStr (Title b)); ("author", JStr (Author b))]%string.

(** [encoding/json] on the values the program encodes.  A nil slice encodes
    as the JSON value [null], any other slice as an array. *)
Definition Marshal (v : GoValue) : json :=
  match v with
  | VBook b => marshalBook b
  | VBooks None => JNull
  | VBooks (Some l) => JArr (map marshalBook l)
  end.

(** ** The response writer

    [http.ResponseWriter] is modelled by what has been done to it: the
    headers set, the status written, the chunks written to the body. *)

Inductive chunk : Type :=
| Line (s : string)        (* a line of text, as [fmt.Fprintln] writes it *)
| Document (v : json).     (* one JSON document, as [Encoder.Encode] writes it *)

Record ResponseWriter : Type := mkResponseWriter {
  Header : gmap string string;
  Status : option Z;
  Written : list chunk
}.

Definition newResponseWriter : ResponseWriter :=
  {| Header := ∅; Status := None; Written := [] |}.

Definition StatusOK : Z := 200.
Definition StatusCreated : Z := 201.
Definition StatusNoContent : Z := 204.
Definition StatusBadRequest : Z := 400.
Definition StatusNotFound : Z := 404.
Definition StatusMethodNotAllowed : Z := 405.

Definition MethodGet : string := "GET".
Definition MethodPost : string := "POST".
Definition MethodPut : string := "PUT".
Definition MethodDelete : string := "DELETE".

(** [w.Header().Set(k, v)] *)
Definition Header_Set (k v : string) (w : ResponseWriter) : ResponseWriter :=
  {| Header := <[k := v]> (Header w); Status := Status w; Written := Written w |}.

(** [w.Header().Del(k)] *)
Definition Header_Del (k : string) (w : ResponseWriter) : ResponseWriter :=
  {| Header := delete k (Header w); Status := Status w; Written := Written w |}.

(** [w.WriteHeader(code)]: the first status written is the one sent. *)
Definition WriteHeader (code : Z) (w : ResponseWriter) : ResponseWriter :=
  {| Header := Header w;
     Status := match Status w with Some c => Some c | None => Some code end;
     Written := Written w |}.

(** [w.Write]: writing the body before any status sends [200]. *)
Definition Write (c : chunk) (w : ResponseWriter) : ResponseWriter :=
  {| Header := Header w;
     Status := match Status w with Some c => Some c | None => Some StatusOK end;
     Written := Written w ++ [c] |}.

(** [json.NewEncoder(w).Encode(data)] *)
Definition Encode (data : GoValue) (w : ResponseWriter) : ResponseWriter :=
  Write (Document (Marshal data)) w.

(** [http.Error(w, msg, code)] of [net/http]. *)
Definition http_Error (w : ResponseWriter) (msg : string) (code : Z) : ResponseWriter :=
  let w := Header_Del "Content-Length" w in
  let w := Header_Set "Content-Type" "text/plain; charset=utf-8" w in
  let w := Header_Set "X-Content-Type-Options" "nosniff" w in
  let w := WriteHeader code w in
  Write (Line msg) w.

(** [sendJSON] *)
Definition sendJSON (w : ResponseWriter) (data : GoValue) (statusCode : Z) : ResponseWriter :=
  let w := Header_Set "Content-Type" "application/json" w in
  let w := WriteHeader statusCode w in
  Encode data w.

(** What a fresh writer holds after [sendJSON] or [http.Error] alone. *)
Definition jsonResponse (code : Z) (v : json) : ResponseWriter :=
  {| Header := {["Content-Type" := "application/json"]};
     Status := Some code;
     Written := [Document v] |}.

Definition errorResponse (code : Z) (msg : string) : ResponseWriter :=
  {| Header := <["X-Content-Type-Options" := "nosniff"]>
                 {["Content-Type" := "text/plain; charset=utf-8"]};
     Status := Some code;
     Written := [Line msg] |}.

(** How a handler call ends: it returns, having written to [w], or it
    panics. *)
Inductive Outcome : Type :=
| Returned (w : ResponseWriter)
| Panicked.

(** ** Strings *)

Fixpoint string_drop (n : nat) (s : string) : string :=
  match n, s with
  | O, _ => s
  | S n', String _ s' => string_drop n' s'
  | S _, EmptyString => EmptyString
  end.

(** The slice expression [s[lo:]]: out of range, it panics. *)
Definition slice_from (lo : nat) (s : string) : option string :=
  if (lo <=? String.length s)%nat then Some (string_drop lo s) else None.

Definition digit (c : ascii) : option Z :=
  let n := Z.of_nat (nat_of_ascii c) in
  if (48 <=? n) && (n <=? 57) then Some (n - 48) else None.

Fixpoint digits (acc : Z) (s : string) : option Z :=
  match s with
  | EmptyString => Some acc
  | String c s' =>
      match digit c with
      | Some d => digits (acc * 10 + d) s'
      | None => None
      end
  end.

(** [strconv.Atoi]: an optional sign, then one or more decimal digits, and
    the value has to fit [int]; anything else is an error. *)
Definition Atoi (intSize : Z) (s : string) : option Z :=
  match s with
  | EmptyString => None
  | String c rest =>
      let neg := Ascii.eqb c "-" in
      let body := if neg || Ascii.eqb c "+" then rest else s in
      match body with
      | EmptyString => None
      | _ =>
          match digits 0 body with
          | None => None
          | Some n =>
              let v := if neg then - n else n in
              if fits intSize v then Some v else None
          end
      end
  end.

(** The decimal numeral of an [int], as a client writes an id into a
    path: a minus sign for a negative value, then the digits, most
    significant first.  Twenty digits are more than an [int] has. *)
Definition digit_char (d : Z) : ascii := ascii_of_nat (Z.to_nat (48 + d)).

Fixpoint numeral_digits (fuel : nat) (n : Z) (acc : string) : string :=
  match fuel with
  | O => acc
  | S fuel' =>
      let acc' := String (digit_char (n mod 10)) acc in
      if n <? 10 then acc' else numeral_digits fuel' (n / 10) acc'
  end.

Definition numeral (z : Z) : string :=
  if z <? 0 then String "-" (numeral_digits 20 (- z) "")
  else numeral_digits 20 z "".

(** [s] between double quotes. *)
Definition quoted (s : string) : string := String "034" (s +:+ String "034" "").

(** The body [{"id":99,"title":"Emma","author":"Austen"}]. *)
Definition sampleBody : string :=
  "{" +:+ quoted "id" +:+ ":99," +:+ quoted "title" +:+ ":" +:+ quoted "Emma" +:+ ","
      +:+ quoted "author" +:+ ":" +:+ quoted "Austen" +:+ "}".

(** A decoder given by a table of two bodies, on which it agrees with
    [encoding/json]: the empty object leaves every field of the book at its
    zero value, and [sampleBody] sets all three.  It rejects every other
    body.  It serves as a concrete instance of the decoder the handlers are
    parametrised by. *)
Definition decodeTable (body : string) : option Book :=
  if String.eqb body "{}" then Some zeroBook
  else if String.eqb body sampleBody
       then Some {| ID := 99; Title := "Emma"; Author := "Austen" |}
       else None.

(** A registry with one book, as a [Create] leaves it. *)
Definition oneBook : Registry :=
  {| books := {[1 := {| ID := 1; Title := "Persuasion"; Author := "Austen" |}]};
     nextID := 2 |}.

(** Requests as the mux hands them to the handlers. *)
Definition bookPath (seg : string) : string := "/books/" +:+ seg.

Definition request (method path body : string) : Request :=
  {| Method := method; Path := path; Body := body |}.

Definition strictly_increasing (l : list Z) : Prop :=
  ∀ i j x y, (i < j)%nat → l !! i = Some x → l !! j = Some y → x < y.

(** ** The mutex

    The handlers once more, this time with [mu] written out.  The shared
    variables sit behind the mutex in a [World]; a goroutine is a function
    on worlds that returns a value or stops.  Loads and stores of [books]
    and [nextID] are instrumented: done without the mutex held they stop the
    goroutine with [Unguarded], which is how the development states that
    this never happens. *)

Inductive Stop : Type :=
| Panic              (* a run-time panic *)
| Blocked            (* waiting in [mu.Lock()] while the mutex is held *)
| Unguarded          (* a shared variable touched without the mutex held *)
| UnlockOfUnlocked.  (* the fatal error of [mu.Unlock()] on a free mutex *)

Record World : Type := mkWorld { shared : Registry; mu : bool }.

Definition Go (A : Type) : Type := World → World * (A + Stop).

#[global] Instance Go_ret : MRet Go := λ A a s, (s, inl a).

#[global] Instance Go_bind : MBind Go := λ A B f m s,
  match m s with
  | (s', inl a) => f a s'
  | (s', inr e) => (s', inr e)
  end.

(** [mu.Lock()] *)
Definition Lock : Go unit := λ s,
  if mu s then (s, inr Blocked)
  else ({| shared := shared s; mu := true |}, inl ()).

(** [mu.Unlock()] *)
Definition Unlock : Go unit := λ s,
  if mu s then ({| shared := shared s; mu := false |}, inl ())
  else (s, inr UnlockOfUnlocked).

(** A load from the shared variables. *)
Definition load {A : Type} (f : Registry → A) : Go A := λ s,
  if mu s then (s, inl (f (shared s))) else (s, inr Unguarded).

(** A store to the shared variables. *)
Definition store (f : Registry → Registry) : Go unit := λ s,
  if mu s then ({| shared := f (shared s); mu := mu s |}, inl ())
  else (s, inr Unguarded).

(** [books[id] = b] *)
Definition set_book (id : Z) (b : Book) (st : Registry) : Registry :=
  {| books := <[id := b]> (books st); nextID := nextID st |}.

(** [delete(books, id)] *)
Definition delete_book (id : Z) (st : Registry) : Registry :=
  {| books := delete id (books st); nextID := nextID st |}.

(** [nextID = n] *)
Definition set_nextID (n : Z) (st : Registry) : Registry :=
  {| books := books st; nextID := n |}.

(** A panic of the goroutine. *)
Definition panic {A : Type} : Go A := λ s, (s, inr Panic).

(** [defer d] at the head of [body]: [d] runs when [body] returns, and
    also when it panics. *)
Definition defer {A : Type} (d : Go unit) (body : Go A) : Go A := λ s,
  match body s with
  | (s', inl a) =>
      match d s' with
      | (s'', inl _) => (s'', inl a)
      | (s'', inr e) => (s'', inr e)
      end
  | (s', inr Panic) => ((d s').1, inr Panic)
  | (s', inr e) => (s', inr e)
  end.

(** How the outcome of a handler reads as the result of a goroutine. *)
Definition result (o : Outcome) : ResponseWriter + Stop :=
  match o with
  | Returned w => inl w
  | Panicked => inr Panic
  end.

(** ** The handlers *)

Inductive Operation : Type := OpCreate | OpList | OpGet | OpUpdate | OpDelete.

(** A run that mixes the five operations: two creations that succeed, one
    that fails, a read and a deletion. *)
Definition mixedCalls : list (Operation * Request) :=
  [(OpCreate, {| Method := "POST"; Path := "/books"; Body := "{}" |});
   (OpGet, {| Method := "GET"; Path := "/books/1"; Body := "" |});
   (OpCreate, {| Method := "POST"; Path := "/books"; Body := "{" |});
   (OpDelete, {| Method := "DELETE"; Path := "/books/1"; Body := "" |});
   (OpCreate, {| Method := "POST"; Path := "/books"; Body := sampleBody |});
   (OpList, {| Method := "GET"; Path := "/books"; Body := "" |})].

Section Handlers.

(** The width of [int] on the platform the program is built for. *)
Variable intSize : Z.

(** [json.NewDecoder(r.Body).Decode(&book)] on a zero [book]: the decoded
    book, or [None] when [Decode] returns an error.  The handlers are
    verified for every decoder. *)
Variable json_decode : string → option Book.

(** The order in which [for _, book := range books] visits the map, which
    the language leaves unspecified. *)
Variable range_order : gmap Z Book → list (Z * Book).

(** [CreateBook] *)
Definition CreateBook (w : ResponseWriter) (r : Request) (st : Registry)
  : Registry * Outcome :=
  match json_decode (Body r) with
  | None => (st, Returned (http_Error w "Invalid input" StatusBadRequest))
  | Some book =>
      let book := set_ID (nextID st) book in
      let st' := {| books := <[ID book := book]> (books st);
                    nextID := wrap intSize (nextID st + 1) |} in
      (st', Returned (sendJSON w (VBook book) StatusCreated))
  end.

(** [GetBooks] *)
Definition GetBooks (w : ResponseWriter) (r : Request) (st : Registry)
  : Registry * Outcome :=
  let bookList := fold_left (λ acc kv, append acc kv.2) (range_order (books st)) None in
  (st, Returned (sendJSON w (VBooks bookList) StatusOK)).

(** [GetBook] *)
Definition GetBook (w : ResponseWriter) (r : Request) (st : Registry)
  : Registry * Outcome :=
  match slice_from (String.length "/books/") (Path r) with
  | None => (st, Panicked)
  | Some idStr =>
      match Atoi intSize idStr with
      | None => (st, Returned (http_Error w "Invalid book ID" StatusBadRequest))
      | Some id =>
          match books st !! id with
          | None => (st, Returned (http_Error w "Book not found" StatusNotFound))
          | Some book => (st, Returned (sendJSON w (VBook book) StatusOK))
          end
      end
  end.

(** [UpdateBook] *)
Definition UpdateBook (w : ResponseWriter) (r : Request) (st : Registry)
  : Registry * Outcome :=
  match slice_from (String.length "/books/") (Path r) with
  | None => (st, Panicked)
  | Some idStr =>
      match Atoi intSize idStr with
      | None => (st, Returned (http_Error w "Invalid book ID" StatusBadRequest))
      | Some id =>
          match json_decode (Body r) with
          | None => (st, Returned (http_Error w "Invalid input" StatusBadRequest))
          | Some updatedBook =>
              match books st !! id with
              | None => (st, Returned (http_Error w "Book not found" StatusNotFound))
              | Some _ =>
                  let updatedBook := set_ID id updatedBook in
                  let st' := {| books := <[id := updatedBook]> (books st);
                                nextID := nextID st |} in
                  (st', Returned (sendJSON w (VBook updatedBook) StatusOK))
              end
          end
      end
  end.

(** [DeleteBook] *)
Definition DeleteBook (w : ResponseWriter) (r : Request) (st : Registry)
  : Registry * Outcome :=
  match slice_from (String.length "/books/") (Path r) with
  | None => (st, Panicked)
  | Some idStr =>
      match Atoi intSize idStr with
      | None => (st, Returned (http_Error w "Invalid book ID" StatusBadRequest))
      | Some id =>
          match books st !! id with
          | None => (st, Returned (http_Error w "Book not found" StatusNotFound))
          | Some _ =>
              let st' := {| books := delete id (books st); nextID := nextID st |} in
              (st', Returned (WriteHeader StatusNoContent w))
          end
      end
  end.

(** The function [main] registers for [/books]. *)
Definition booksHandler (w : ResponseWriter) (r : Request) (st : Registry)
  : Registry * Outcome :=
  if String.eqb (Method r) MethodGet then GetBooks w r st
  else if String.eqb (Method r) MethodPost then CreateBook w r st
  else (st, Returned (http_Error w "Method not allowed" StatusMethodNotAllowed)).

(** The function [main] registers for [/books/]. *)
Definition bookHandler (w : ResponseWriter) (r : Request) (st : Registry)
  : Registry * Outcome :=
  if String.eqb (Method r) MethodGet then GetBook w r st
  else if String.eqb (Method r) MethodPut then UpdateBook w r st
  else if String.eqb (Method r) MethodDelete then DeleteBook w r st
  else (st, Returned (http_Error w "Method not allowed" StatusMethodNotAllowed)).

(** ** Sequences of operations *)

Definition handler (op : Operation)
  : ResponseWriter → Request → Registry → Registry * Outcome :=
  match op with
  | OpCreate => CreateBook
  | OpList => GetBooks
  | OpGet => GetBook
  | OpUpdate => UpdateBook
  | OpDelete => DeleteBook
  end.

(** One operation on a fresh response writer. *)
Definition call (c : Operation * Request) (st : Registry) : Registry * Outcome :=
  handler c.1 newResponseWriter c.2 st.

(** The operations of [calls] one after the other; the outcomes are listed
    in the order of the calls. *)
Fixpoint run (calls : list (Operation * Request)) (st : Registry)
  : Registry * list Outcome :=
  match calls with
  | [] => (st, [])
  | c :: calls' =>
      let '(st1, o) := call c st in
      let '(st2, os) := run calls' st1 in
      (st2, o :: os)
  end.

(** The process that serves the calls, with room for [capacity] records.
    A call that would leave more records in the map than there is room for
    ends the process while it stores the record, before it answers (the
    runtime's [fatal error: out of memory]); no call is served after. *)
Fixpoint exec (capacity : nat) (calls : list (Operation * Request)) (st : Registry)
  : option Registry * list Outcome :=
  match calls with
  | [] => (Some st, [])
  | c :: calls' =>
      let '(st1, o) := call c st in
      if (size (books st1) <=? capacity)%nat then
        let '(p, os) := exec capacity calls' st1 in
        (p, o :: os)
      else (None, [])
  end.

(** [n] times a [Create] followed by the [Delete] of the id it returns,
    [id] being the first of these ids. *)
Fixpoint churn (body : string) (id : Z) (n : nat) : list (Operation * Request) :=
  match n with
  | O => []
  | S n' =>
      (OpCreate, request MethodPost "/books" body)
        :: (OpDelete, request MethodDelete (bookPath (numeral id)) "")
        :: churn body (wrap intSize (id + 1)) n'
  end.

(** The id of the book a [201 Created] response carries. *)
Definition created_id (o : Outcome) : option Z :=
  match o with
  | Returned w =>
      match Status w with
      | Some code =>
          if code =? StatusCreated then
            match Written w with
            | [Document (JObj ((k, JNum i) :: _))] =>
                if String.eqb k "id" then Some i else None
            | _ => None
            end
          else None
      | None => None
      end
  | Panicked => None
  end.

Definition created_ids (os : list Outcome) : list Z := omap created_id os.

(** A [Create] call for each of the bodies. *)
Definition creates (bodies : list string) : list (Operation * Request) :=
  map (λ body, (OpCreate, request MethodPost "/books" body)) bodies.

(** The calls that assign an id: the [Create]s with a body that decodes. *)
Definition assigning (c : Operation * Request) : bool :=
  match c.1 with
  | OpCreate => match json_decode (Body c.2) with Some _ => true | None => false end
  | _ => false
  end.

Fixpoint assigned (calls : list (Operation * Request)) : nat :=
  match calls with
  | [] => 0
  | c :: calls' => (if assigning c then 1 else 0) + assigned calls'
  end.

(** The operations that take an id from the path. *)
Definition by_id (op : Operation) : Prop := op = OpGet ∨ op = OpUpdate ∨ op = OpDelete.

(** The invariant of the data model: a book is stored under its own id. *)
Definition keyed (st : Registry) : Prop :=
  ∀ k b, books st !! k = Some b → ID b = k.

(** [CreateBook], with the mutex. *)
Definition CreateBook_mu (w : ResponseWriter) (r : Request) : Go ResponseWriter :=
  match json_decode (Body r) with
  | None => mret (http_Error w "Invalid input" StatusBadRequest)
  | Some book =>
      Lock ;;
      id ← load nextID;
      let book := set_ID id book in
      store (set_book (ID book) book) ;;
      n ← load nextID;
      store (set_nextID (wrap intSize (n + 1))) ;;
      Unlock ;;
      mret (sendJSON w (VBook book) StatusCreated)
  end.

(** [GetBooks], with the mutex. *)
Definition GetBooks_mu (w : ResponseWriter) (r : Request) : Go ResponseWriter :=
  Lock ;;
  defer Unlock (
    entries ← load (λ st, range_order (books st));
    let bookList := fold_left (λ acc kv, append acc kv.2) entries None in
    mret (sendJSON w (VBooks bookList) StatusOK)).

(** [GetBook], with the mutex. *)
Definition GetBook_mu (w : ResponseWriter) (r : Request) : Go ResponseWriter :=
  match slice_from (String.length "/books/") (Path r) with
  | None => panic
  | Some idStr =>
      match Atoi intSize idStr with
      | None => mret (http_Error w "Invalid book ID" StatusBadRequest)
      | Some id =>
          Lock ;;
          defer Unlock (
            found ← load (λ st, books st !! id);
            match found with
            | None => mret (http_Error w "Book not found" StatusNotFound)
            | Some book => mret (sendJSON w (VBook book) StatusOK)
            end)
      end
  end.

(** [UpdateBook], with the mutex. *)
Definition UpdateBook_mu (w : ResponseWriter) (r : Request) : Go ResponseWriter :=
  match slice_from (String.length "/books/") (Path r) with
  | None => panic
  | Some idStr =>
      match Atoi intSize idStr with
      | None => mret (http_Error w "Invalid book ID" StatusBadRequest)
      | Some id =>
          match json_decode (Body r) with
          | None => mret (http_Error w "Invalid input" StatusBadRequest)
          | Some updatedBook =>
              Lock ;;
              defer Unlock (
                found ← load (λ st, books st !! id);
                match found with
                | None => mret (http_Error w "Book not found" StatusNotFound)
                | Some _ =>
                    let updatedBook := set_ID id updatedBook in
                    store (set_book id updatedBook) ;;
                    mret (sendJSON w (VBook updatedBook) StatusOK)
                end)
          end
      end
  end.

(** [DeleteBook], with the mutex. *)
Definition DeleteBook_mu (w : ResponseWriter) (r : Request) : Go ResponseWriter :=
  match slice_from (String.length "/books/") (Path r) with
  | None => panic
  | Some idStr =>
      match Atoi intSize idStr with
      | None => mret (http_Error w "Invalid book ID" StatusBadRequest)
      | Some id =>
          Lock ;;
          defer Unlock (
            found ← load (λ st, books st !! id);
            match found with
            | None => mret (http_Error w "Book not found" StatusNotFound)
            | Some _ =>
                store (delete_book id) ;;
                mret (WriteHeader StatusNoContent w)
            end)
      end
  end.

Definition handler_mu (op : Operation) : ResponseWriter → Request → Go ResponseWriter :=
  match op with
  | OpCreate => CreateBook_mu
  | OpList => GetBooks_mu
  | OpGet => GetBook_mu
  | OpUpdate => UpdateBook_mu
  | OpDelete => DeleteBook_mu
  end.

(** The status a handler answered with, if it answered. *)
Definition status_of (o : Outcome) : option Z :=
  match o with
  | Returned w => Status w
  | Panicked => None
  end.

(** ** Arithmetic of [int] *)

Lemma pow2_intSize : 0 < intSize → 2 ^ intSize = 2 * 2 ^ (intSize - 1).
Proof.
  intros Hpos. replace intSize with (Z.succ (intSize - 1)) at 1 by lia.
  apply Z.pow_succ_r. lia.
Qed.

Lemma pow2_half_pos : 0 < intSize → 0 < 2 ^ (intSize - 1).
Proof. intros Hpos. apply Z.pow_pos_nonneg; lia. Qed.

Lemma wrap_fits z :
  0 < intSize → MinInt intSize ≤ z ≤ MaxInt intSize → wrap intSize z = z.
Proof.
  unfold MinInt, MaxInt, wrap. intros Hpos Hz.
  pose proof (pow2_half_pos Hpos) as Hhalf.
  rewrite (pow2_intSize Hpos), Z.mod_small; lia.
Qed.

Lemma wrap_range z :
  0 < intSize → MinInt intSize ≤ wrap intSize z ≤ MaxInt intSize.
Proof.
  unfold MinInt, MaxInt, wrap. intros Hpos.
  pose proof (pow2_half_pos Hpos) as Hhalf.
  rewrite (pow2_intSize Hpos).
  pose proof (Z.mod_pos_bound (z + 2 ^ (intSize - 1)) (2 * 2 ^ (intSize - 1))).
  lia.
Qed.

Lemma wrap_overflow :
  0 < intSize → wrap intSize (MaxInt intSize + 1) = MinInt intSize.
Proof.
  unfold MinInt, MaxInt, wrap. intros Hpos.
  replace (2 ^ (intSize - 1) - 1 + 1 + 2 ^ (intSize - 1)) with (2 ^ intSize)
    by (rewrite (pow2_intSize Hpos); lia).
  rewrite Z.mod_same; [lia|].
  pose proof (pow2_half_pos Hpos). rewrite (pow2_intSize Hpos). lia.
Qed.

Lemma valid_intSize_pos : valid_intSize intSize → 0 < intSize.
Proof. intros [-> | ->]; lia. Qed.

Lemma one_fits : valid_intSize intSize → MinInt intSize ≤ 1 ≤ MaxInt intSize.
Proof. intros [-> | ->]; by vm_compute. Qed.

(** ** The response writer *)

Lemma sendJSON_fresh data code :
  sendJSON newResponseWriter data code = jsonResponse code (Marshal data).
Proof. reflexivity. Qed.

Lemma http_Error_fresh msg code :
  http_Error newResponseWriter msg code = errorResponse code msg.
Proof.
  unfold http_Error, errorResponse, Header_Set, Header_Del, WriteHeader, Write.
  simpl. by rewrite delete_empty.
Qed.

(** ** Paths and id segments *)

Lemma slice_from_bookPath seg :
  slice_from (String.length "/books/") (bookPath seg) = Some seg.
Proof. reflexivity. Qed.

Lemma prefix_bookPath p :
  String.prefix "/books/" p = true → ∃ seg, p = bookPath seg.
Proof.
  intros Hp. exists (string_drop 7 p).
  repeat (destruct p as [|? p]; [discriminate|]; simpl in Hp;
          match type of Hp with
          | (if ?d then _ else _) = true =>
              destruct d as [<-|]; [|discriminate]
          end).
  reflexivity.
Qed.

Lemma digits_fail_mono s : ∀ acc acc', digits acc s = None → digits acc' s = None.
Proof.
  induction s as [|c s IH]; simpl; intros acc acc' H; [discriminate|].
  destruct (digit c); [eauto|done].
Qed.

Lemma digits_nondigit s1 c s2 acc :
  digit c = None → digits acc (s1 +:+ String c s2) = None.
Proof.
  intros Hc. revert acc. induction s1 as [|d s1 IH]; simpl; intros acc.
  - by rewrite Hc.
  - destruct (digit d); [apply IH|done].
Qed.

(** A character that is not a decimal digit, anywhere but as a leading
    sign, makes [Atoi] fail; so does a segment without any digit. *)
Lemma Atoi_nondigit_head c s :
  digit c = None → c ≠ "-"%char → c ≠ "+"%char → Atoi intSize (String c s) = None.
Proof.
  intros Hc Hm Hp. unfold Atoi.
  apply Ascii.eqb_neq in Hm, Hp. rewrite Hm, Hp. simpl. by rewrite Hc.
Qed.

Lemma Atoi_nondigit_tail c0 s1 c s2 :
  digit c = None → Atoi intSize (String c0 (s1 +:+ String c s2)) = None.
Proof.
  intros Hc. unfold Atoi.
  destruct (Ascii.eqb c0 "-" || Ascii.eqb c0 "+").
  - pose proof (digits_nondigit s1 c s2 0 Hc) as Hd. rewrite Hd.
    by destruct (s1 +:+ String c s2).
  - pose proof (digits_nondigit (String c0 s1) c s2 0 Hc) as Hd.
    simpl in Hd |- *. by rewrite Hd.
Qed.

Lemma Atoi_fits s v : Atoi intSize s = Some v → fits intSize v = true.
Proof.
  unfold Atoi. destruct s as [|c rest]; [done|].
  destruct (if Ascii.eqb c "-" || Ascii.eqb c "+" then rest else String c rest);
    [done|].
  destruct (digits 0 _); [|done].
  destruct (fits intSize _) eqn:Hf; [|done]. by intros [= <-].
Qed.

(** ** Listing *)

Lemma fold_append_Some (l : list (Z * Book)) (acc : list Book) :
  fold_left (λ acc kv, append acc kv.2) l (Some acc) = Some (acc ++ l.*2).
Proof.
  revert acc. induction l as [|kv l IH]; intros acc; simpl.
  - by rewrite app_nil_r.
  - rewrite IH. by rewrite <- app_assoc.
Qed.

Lemma fold_append_nil (l : list (Z * Book)) :
  fold_left (λ acc kv, append acc kv.2) l None =
  match l with [] => None | _ => Some l.*2 end.
Proof. destruct l as [|kv l]; [done|]. simpl. by rewrite fold_append_Some. Qed.

Section Range.

Hypothesis range_order_perm : ∀ m, range_order m ≡ₚ map_to_list m.

Lemma range_order_empty : range_order ∅ = [].
Proof.
  apply Permutation_nil_r. rewrite range_order_perm. by rewrite map_to_list_empty.
Qed.

(** C2 (amended): on a registry whose map is empty, [GetBooks] answers with
    status 200, content type [application/json] and the JSON value [null]:
    the slice it encodes is still the nil slice it was declared as, and the
    registry is left as it was. *)
Theorem GetBooks_empty_null r st :
  books st = ∅ →
  GetBooks newResponseWriter r st = (st, Returned (jsonResponse StatusOK JNull)).
Proof.
  intros Hempty. unfold GetBooks. rewrite Hempty, range_order_empty. simpl.
  by rewrite sendJSON_fresh.
Qed.

(** On a registry that holds books the answer is an array with one element
    for each of them, in the order of the traversal. *)
Lemma GetBooks_nonempty r st :
  books st ≠ ∅ →
  ∃ l, l ≡ₚ (map_to_list (books st)).*2 ∧
       GetBooks newResponseWriter r st =
       (st, Returned (jsonResponse StatusOK (JArr (map marshalBook l)))).
Proof.
  intros Hne. exists (range_order (books st)).*2. split.
  - by rewrite range_order_perm.
  - unfold GetBooks. rewrite fold_append_nil, sendJSON_fresh.
    destruct (range_order (books st)) as [|kv l] eqn:Hl; [|done].
    exfalso. apply Hne, map_to_list_empty_iff, Permutation_nil_r.
    by rewrite <- range_order_perm, Hl.
Qed.

End Range.

(** ** Id segments that do not parse *)

(** C3 (amended): a [Get], [Update] or [Delete] whose id segment
    [strconv.Atoi] rejects is answered with 400 and [Invalid book ID],
    whatever the registry holds, and leaves the registry as it was.  [Atoi]
    rejects the empty segment and every segment with a character that is not
    a decimal digit, a leading sign apart; a segment it accepts, negative
    ones included, has a value that fits [int]. *)
Theorem bad_id_segment :
  (∀ op seg m body st,
     by_id op → Atoi intSize seg = None →
     handler op newResponseWriter (request m (bookPath seg) body) st =
     (st, Returned (errorResponse StatusBadRequest "Invalid book ID"))) ∧
  Atoi intSize "" = None ∧
  (∀ c s, digit c = None → c ≠ "-"%char → c ≠ "+"%char →
          Atoi intSize (String c s) = None) ∧
  (∀ c0 s1 c s2, digit c = None →
                 Atoi intSize (String c0 (s1 +:+ String c s2)) = None) ∧
  (∀ seg v, Atoi intSize seg = Some v → MinInt intSize ≤ v ≤ MaxInt intSize).
Proof.
  split; [|split; [done|split; [|split]]].
  - intros op seg m body st Hop Hseg.
    destruct Hop as [-> | [-> | ->]]; simpl;
      unfold GetBook, UpdateBook, DeleteBook; simpl Path;
      by rewrite slice_from_bookPath, Hseg, http_Error_fresh.
  - apply Atoi_nondigit_head.
  - apply Atoi_nondigit_tail.
  - intros seg v Hv. apply Atoi_fits in Hv. unfold fits in Hv. lia.
Qed.

(** ** Bodies that do not decode *)

(** C4: a [Create] or an [Update] whose body does not decode is answered
    with 400, and the registry after the call is the registry before it,
    map and counter alike. *)
Theorem undecodable_body_unchanged m path seg body st :
  json_decode body = None →
  CreateBook newResponseWriter (request m path body) st =
    (st, Returned (errorResponse StatusBadRequest "Invalid input")) ∧
  UpdateBook newResponseWriter (request m (bookPath seg) body) st =
    (st, Returned (errorResponse StatusBadRequest
                     (match Atoi intSize seg with
                      | Some _ => "Invalid input"
                      | None => "Invalid book ID"
                      end))).
Proof.
  intros Hbody. split.
  - unfold CreateBook. simpl Body. by rewrite Hbody, http_Error_fresh.
  - unfold UpdateBook. simpl Path. simpl Body. rewrite slice_from_bookPath.
    destruct (Atoi intSize seg); [rewrite Hbody|]; by rewrite http_Error_fresh.
Qed.

(** ** Update *)

(** C5: an [Update] of a stored id with a body that decodes stores the
    decoded title and author under that id, with the id of the path in place
    of whatever id the body carried, answers 200 with that record, and a
    [Get] of the id right after answers 200 with the same record; an
    [Update] of an id that is not stored answers 404 and leaves the registry
    as it was. *)
Theorem UpdateBook_replaces m m' seg body body' st id b :
  Atoi intSize seg = Some id →
  json_decode body = Some b →
  let new := {| ID := id; Title := Title b; Author := Author b |} in
  let st' := {| books := <[id := new]> (books st); nextID := nextID st |} in
  (is_Some (books st !! id) →
     UpdateBook newResponseWriter (request m (bookPath seg) body) st =
       (st', Returned (jsonResponse StatusOK (marshalBook new))) ∧
     books st' !! id = Some new ∧
     GetBook newResponseWriter (request m' (bookPath seg) body') st' =
       (st', Returned (jsonResponse StatusOK (marshalBook new)))) ∧
  (books st !! id = None →
     UpdateBook newResponseWriter (request m (bookPath seg) body) st =
       (st, Returned (errorResponse StatusNotFound "Book not found"))).
Proof.
  intros Hseg Hbody new st'. split.
  - intros [old Hold]. split; [|split].
    + unfold UpdateBook. simpl Path. simpl Body.
      by rewrite slice_from_bookPath, Hseg, Hbody, Hold, sendJSON_fresh.
    + apply lookup_insert_eq.
    + unfold GetBook. simpl Path. rewrite slice_from_bookPath, Hseg.
      unfold st' at 1. simpl books. by rewrite lookup_insert_eq, sendJSON_fresh.
  - intros Habsent. unfold UpdateBook. simpl Path. simpl Body.
    by rewrite slice_from_bookPath, Hseg, Hbody, Habsent, http_Error_fresh.
Qed.

(** ** Create, then get *)

(** C6: from any registry, a [Create] whose body decodes to title [T] and
    author [A] answers 201 with the record [{id, T, A}], [id] being the
    counter before the call, and a [Get] of that id right after answers 200
    with exactly that record. *)
Theorem CreateBook_then_GetBook m m' path seg body body' st b :
  json_decode body = Some b →
  Atoi intSize seg = Some (nextID st) →
  let new := {| ID := nextID st; Title := Title b; Author := Author b |} in
  let st' := (CreateBook newResponseWriter (request m path body) st).1 in
  CreateBook newResponseWriter (request m path body) st =
    (st', Returned (jsonResponse StatusCreated (marshalBook new))) ∧
  GetBook newResponseWriter (request m' (bookPath seg) body') st' =
    (st', Returned (jsonResponse StatusOK (marshalBook new))).
Proof.
  intros Hbody Hseg new st'. subst st'. unfold CreateBook. simpl Body.
  rewrite Hbody. simpl. split; [by rewrite sendJSON_fresh|].
  unfold GetBook. simpl Path. rewrite slice_from_bookPath, Hseg. simpl books.
  by rewrite lookup_insert_eq, sendJSON_fresh.
Qed.

(** ** Delete *)

(** C7: a [Delete] of a stored id answers 204 with no header and no body
    and removes the record, so that a [Get] of the id right after answers
    404; a [Delete] of an id that is not stored answers 404 and leaves the
    registry as it was. *)
Theorem DeleteBook_removes m m' seg body body' st id :
  Atoi intSize seg = Some id →
  let st' := {| books := delete id (books st); nextID := nextID st |} in
  (is_Some (books st !! id) →
     DeleteBook newResponseWriter (request m (bookPath seg) body) st =
       (st', Returned {| Header := ∅; Status := Some StatusNoContent; Written := [] |}) ∧
     books st' !! id = None ∧
     GetBook newResponseWriter (request m' (bookPath seg) body') st' =
       (st', Returned (errorResponse StatusNotFound "Book not found"))) ∧
  (books st !! id = None →
     DeleteBook newResponseWriter (request m (bookPath seg) body) st =
       (st, Returned (errorResponse StatusNotFound "Book not found"))).
Proof.
  intros Hseg st'. split.
  - intros [old Hold]. split; [|split].
    + unfold DeleteBook. simpl Path.
      by rewrite slice_from_bookPath, Hseg, Hold.
    + apply lookup_delete_eq.
    + unfold GetBook. simpl Path. rewrite slice_from_bookPath, Hseg.
      unfold st' at 1. simpl books. by rewrite lookup_delete_eq, http_Error_fresh.
  - intros Habsent. unfold DeleteBook. simpl Path.
    by rewrite slice_from_bookPath, Hseg, Habsent, http_Error_fresh.
Qed.

(** ** The order of the checks in [UpdateBook] *)

(** C10: [UpdateBook] checks the id segment first, the body second and the
    presence of the record last.  A segment that does not parse is answered
    with [Invalid book ID] whatever the body; a segment that parses with a
    body that does not decode is answered with 400 and [Invalid input]
    whether the id is stored or not, in particular when it is not; only with
    both in order does an id that is not stored give 404.  The registry is
    unchanged in all three cases. *)
Theorem UpdateBook_check_order m seg body st :
  (Atoi intSize seg = None →
     UpdateBook newResponseWriter (request m (bookPath seg) body) st =
       (st, Returned (errorResponse StatusBadRequest "Invalid book ID"))) ∧
  (∀ id, Atoi intSize seg = Some id → json_decode body = None →
     UpdateBook newResponseWriter (request m (bookPath seg) body) st =
       (st, Returned (errorResponse StatusBadRequest "Invalid input"))) ∧
  (∀ id b, Atoi intSize seg = Some id → json_decode body = Some b →
     books st !! id = None →
     UpdateBook newResponseWriter (request m (bookPath seg) body) st =
       (st, Returned (errorResponse StatusNotFound "Book not found"))).
Proof.
  unfold UpdateBook. simpl Path. simpl Body. rewrite slice_from_bookPath.
  split; [|split].
  - intros ->. by rewrite http_Error_fresh.
  - intros id -> ->. by rewrite http_Error_fresh.
  - intros id b -> -> ->. by rewrite http_Error_fresh.
Qed.

(** ** Runs *)

Lemma run_cons c calls st :
  run (c :: calls) st =
  ((run calls (call c st).1).1, (call c st).2 :: (run calls (call c st).1).2).
Proof.
  cbn [run]. destruct (call c st) as [st1 o]. cbn [fst snd].
  by destruct (run calls st1).
Qed.

Lemma run_app calls1 calls2 st :
  run (calls1 ++ calls2) st =
  ((run calls2 (run calls1 st).1).1,
   (run calls1 st).2 ++ (run calls2 (run calls1 st).1).2).
Proof.
  revert st. induction calls1 as [|c calls1 IH]; intros st.
  - simpl. by destruct (run calls2 st).
  - rewrite <- app_comm_cons, !run_cons, IH. done.
Qed.

(** ** Books are stored under their own id *)

Lemma keyed_initial : keyed initial.
Proof. intros k b. simpl. by rewrite lookup_empty. Qed.

Lemma keyed_insert st id b n :
  keyed st → ID b = id → keyed {| books := <[id := b]> (books st); nextID := n |}.
Proof.
  intros Hst Hb k b'. simpl. rewrite lookup_insert.
  case_decide as Hk; [|apply Hst]. intros [= <-]. congruence.
Qed.

Lemma keyed_delete st id n :
  keyed st → keyed {| books := delete id (books st); nextID := n |}.
Proof.
  intros Hst k b'. simpl. rewrite lookup_delete.
  case_decide; [done|apply Hst].
Qed.

Lemma call_keyed c st : keyed st → keyed (call c st).1.
Proof.
  intros Hst. destruct c as [op r]. unfold call. simpl.
  destruct op; simpl;
    unfold CreateBook, GetBooks, GetBook, UpdateBook, DeleteBook;
    repeat match goal with
           | |- context [match ?x with _ => _ end] => destruct x
           end; simpl; auto using keyed_insert, keyed_delete.
Qed.

Lemma run_keyed calls : ∀ st, keyed st → keyed (run calls st).1.
Proof.
  induction calls as [|c calls IH]; intros st Hst; [done|].
  rewrite run_cons. simpl. by apply IH, call_keyed.
Qed.

(** C8: after any sequence of [Create], [List], [Get], [Update] and
    [Delete] calls from the initial registry, every book of the map has the
    key it is stored under as its id. *)
Theorem reachable_keyed calls : keyed (run calls initial).1.
Proof. apply run_keyed, keyed_initial. Qed.

(** ** The counter *)

Lemma call_nextID c st :
  nextID (call c st).1 =
  if assigning c then wrap intSize (nextID st + 1) else nextID st.
Proof.
  destruct c as [op r]. unfold call, assigning. simpl.
  destruct op; simpl;
    unfold CreateBook, GetBooks, GetBook, UpdateBook, DeleteBook;
    repeat match goal with
           | |- context [match ?x with _ => _ end] => destruct x
           end; reflexivity.
Qed.

Lemma call_created_id c st :
  created_id (call c st).2 = if assigning c then Some (nextID st) else None.
Proof.
  destruct c as [op r]. unfold call, assigning. simpl.
  destruct op; simpl;
    unfold CreateBook, GetBooks, GetBook, UpdateBook, DeleteBook;
    repeat match goal with
           | |- context [match ?x with _ => _ end] => destruct x
           end; reflexivity.
Qed.

Lemma created_ids_cons o os :
  created_ids (o :: os) =
  match created_id o with Some i => i :: created_ids os | None => created_ids os end.
Proof. reflexivity. Qed.

Lemma assigned_app calls1 calls2 :
  assigned (calls1 ++ calls2) = (assigned calls1 + assigned calls2)%nat.
Proof. induction calls1 as [|c calls1 IH]; simpl; [done|]. rewrite IH. lia. Qed.

Lemma assigned_creates bodies :
  Forall (λ body, is_Some (json_decode body)) bodies →
  assigned (creates bodies) = length bodies.
Proof.
  induction 1 as [|body bodies [b Hb] _ IH]; simpl; [done|].
  unfold assigning. simpl. by rewrite Hb, IH.
Qed.

(** As long as the ids handed out stay below the wrap-around, a run hands
    out consecutive ids starting at the counter, and the counter ends at the
    start plus the number of ids handed out (wrapped, if the last id was
    [MaxInt]). *)
Lemma run_counter calls : ∀ st,
  0 < intSize →
  MinInt intSize ≤ nextID st ≤ MaxInt intSize →
  nextID st + Z.of_nat (assigned calls) ≤ MaxInt intSize + 1 →
  created_ids (run calls st).2 = seqZ (nextID st) (Z.of_nat (assigned calls)) ∧
  nextID (run calls st).1 = wrap intSize (nextID st + Z.of_nat (assigned calls)).
Proof.
  induction calls as [|c calls IH]; intros st Hpos Hst Hroom.
  - simpl. split; [done|]. rewrite Z.add_0_r. by rewrite wrap_fits.
  - rewrite run_cons. cbn [fst snd]. rewrite created_ids_cons, call_created_id.
    pose proof (call_nextID c st) as Hnext. cbn [assigned] in Hroom |- *.
    destruct (assigning c).
    + pose proof (wrap_range (nextID st + 1) Hpos) as Hrange.
      destruct (decide (assigned calls = 0%nat)) as [Hzero | Hmore].
      * destruct (IH (call c st).1 Hpos) as [Hids Hend]; [lia..|].
        rewrite Hids, Hend, Hnext, Hzero. simpl. split.
        -- rewrite (seqZ_cons _ 1) by lia. by rewrite !seqZ_nil by lia.
        -- rewrite Z.add_0_r. by rewrite wrap_fits.
      * assert (wrap intSize (nextID st + 1) = nextID st + 1) as Hstep
          by (apply wrap_fits; [done|lia]).
        rewrite Hstep in Hnext.
        destruct (IH (call c st).1 Hpos) as [Hids Hend]; [lia..|].
        rewrite Hids, Hend, Hnext. split.
        -- rewrite (seqZ_cons (nextID st)) by lia. do 2 f_equal; lia.
        -- f_equal. lia.
    + destruct (IH (call c st).1 Hpos) as [Hids Hend]; [lia..|].
      rewrite Hids, Hend, Hnext. simpl. done.
Qed.

Lemma seqZ_increasing m n : strictly_increasing (seqZ m n).
Proof.
  intros i j x y Hij [-> _]%lookup_seqZ [-> _]%lookup_seqZ. lia.
Qed.

Lemma creates_app bodies1 bodies2 :
  creates (bodies1 ++ bodies2) = creates bodies1 ++ creates bodies2.
Proof. apply map_app. Qed.

Lemma created_ids_app os1 os2 :
  created_ids (os1 ++ os2) = created_ids os1 ++ created_ids os2.
Proof. apply omap_app. Qed.

Lemma assigning_create m path body :
  assigning (OpCreate, request m path body) =
  match json_decode body with Some _ => true | None => false end.
Proof. reflexivity. Qed.

Lemma call_books_assigning c st :
  assigning c = true →
  ∃ b, json_decode (Body c.2) = Some b ∧
       books (call c st).1 = <[nextID st := set_ID (nextID st) b]> (books st).
Proof.
  destruct c as [op r]. unfold assigning, call. simpl.
  destruct op; try discriminate. simpl. unfold CreateBook.
  destruct (json_decode (Body r)) as [b|]; [|discriminate]. eauto.
Qed.

Lemma call_dom_other c st :
  assigning c = false → dom (books (call c st).1) ⊆ dom (books st).
Proof.
  destruct c as [op r]. unfold assigning, call. simpl.
  destruct op; simpl; unfold CreateBook, GetBooks, GetBook, UpdateBook, DeleteBook;
    repeat match goal with
           | |- context [match ?x with _ => _ end] => destruct x eqn:?
           end; simpl; try done; intros _.
  - rewrite dom_insert_lookup_L by eauto. done.
  - rewrite dom_delete_L. intros k. rewrite elem_of_difference. tauto.
Qed.

(** ** Wrap-around *)

Lemma wrap_add a b :
  0 < intSize → wrap intSize (wrap intSize a + b) = wrap intSize (a + b).
Proof.
  intros Hpos. unfold wrap. f_equal.
  replace ((a + 2 ^ (intSize - 1)) mod 2 ^ intSize - 2 ^ (intSize - 1) + b
           + 2 ^ (intSize - 1))
    with ((a + 2 ^ (intSize - 1)) mod 2 ^ intSize + b) by lia.
  rewrite Zplus_mod_idemp_l. f_equal. lia.
Qed.

(** Two integers less than [2 ^ intSize] apart wrap to different values. *)
Lemma wrap_inj a b :
  0 < intSize →
  wrap intSize a = wrap intSize b → - 2 ^ intSize < a - b < 2 ^ intSize → a = b.
Proof.
  intros Hpos Hwrap Hnear. unfold wrap in Hwrap.
  pose proof (pow2_half_pos Hpos) as Hhalf.
  pose proof (pow2_intSize Hpos) as Hdouble.
  assert (2 ^ intSize ≠ 0) as Hnz by lia.
  pose proof (Z.div_mod (a + 2 ^ (intSize - 1)) (2 ^ intSize) Hnz) as Ha.
  pose proof (Z.div_mod (b + 2 ^ (intSize - 1)) (2 ^ intSize) Hnz) as Hb.
  assert ((a + 2 ^ (intSize - 1)) mod 2 ^ intSize =
          (b + 2 ^ (intSize - 1)) mod 2 ^ intSize) as Hmod by lia.
  rewrite Hmod in Ha.
  set (qa := (a + 2 ^ (intSize - 1)) / 2 ^ intSize) in *.
  set (qb := (b + 2 ^ (intSize - 1)) / 2 ^ intSize) in *.
  assert (qa = qb) as Hq by nia.
  rewrite Hq in Ha. lia.
Qed.

(** ** Numerals *)

Lemma digit_digit_char d : 0 ≤ d ≤ 9 → digit (digit_char d) = Some d.
Proof.
  intros Hd.
  assert (d = 0 ∨ d = 1 ∨ d = 2 ∨ d = 3 ∨ d = 4 ∨ d = 5 ∨ d = 6 ∨ d = 7 ∨ d = 8 ∨ d = 9)
    as Hcases by lia.
  by repeat destruct Hcases as [-> | Hcases]; try subst d.
Qed.

Lemma digit_char_no_sign d :
  0 ≤ d ≤ 9 →
  Ascii.eqb (digit_char d) "-" = false ∧ Ascii.eqb (digit_char d) "+" = false.
Proof.
  intros Hd.
  assert (d = 0 ∨ d = 1 ∨ d = 2 ∨ d = 3 ∨ d = 4 ∨ d = 5 ∨ d = 6 ∨ d = 7 ∨ d = 8 ∨ d = 9)
    as Hcases by lia.
  by repeat destruct Hcases as [-> | Hcases]; try subst d.
Qed.

(** Read back, the digits written in front of [acc] shift what was read
    before them and add the number written. *)
Lemma digits_numeral_digits fuel : ∀ n acc a,
  0 ≤ n < 10 ^ Z.of_nat fuel →
  ∃ len, 0 ≤ len ∧
         digits a (numeral_digits fuel n acc) = digits (a * 10 ^ len + n) acc.
Proof.
  induction fuel as [|fuel IH]; intros n acc a Hn.
  - exists 0. split; [done|]. simpl in *. repeat f_equal. lia.
  - simpl numeral_digits. rewrite Nat2Z.inj_succ, Z.pow_succ_r in Hn by lia.
    destruct (Z.ltb_spec n 10) as [Hsmall | Hbig].
    + exists 1. split; [done|]. simpl digits.
      rewrite Z.mod_small, digit_digit_char by lia. by rewrite Z.pow_1_r.
    + destruct (IH (n / 10) (String (digit_char (n mod 10)) acc) a) as (len & Hlen & ->).
      { split; [apply Z.div_pos; lia|]. apply Z.div_lt_upper_bound; lia. }
      exists (len + 1). split; [lia|]. simpl digits.
      pose proof (Z.mod_pos_bound n 10) as Hmod.
      rewrite digit_digit_char by lia. f_equal.
      rewrite Z.pow_add_r, Z.pow_1_r by lia.
      pose proof (Z.div_mod n 10). lia.
Qed.

(** The numeral of a number that is not negative starts with a digit. *)
Lemma numeral_digits_head fuel : ∀ n acc,
  (0 < fuel)%nat → 0 ≤ n →
  ∃ d rest, 0 ≤ d ≤ 9 ∧ numeral_digits fuel n acc = String (digit_char d) rest.
Proof.
  induction fuel as [|fuel IH]; intros n acc Hfuel Hn; [lia|].
  simpl. pose proof (Z.mod_pos_bound n 10) as Hmod.
  destruct (n <? 10); [exists (n mod 10), acc; split; [lia|done]|].
  destruct fuel as [|fuel'].
  - exists (n mod 10), acc. split; [lia|done].
  - apply IH; [lia|]. apply Z.div_pos; lia.
Qed.

Lemma fits_below_20_digits z :
  valid_intSize intSize → fits intSize z = true → - 10 ^ 20 < z < 10 ^ 20.
Proof.
  intros [-> | ->]; unfold fits, MinInt, MaxInt; simpl; lia.
Qed.

(** [strconv.Atoi] reads the numeral of an [int] back as that [int]. *)
Lemma Atoi_numeral z :
  valid_intSize intSize → fits intSize z = true → Atoi intSize (numeral z) = Some z.
Proof.
  intros Hvalid Hfits. pose proof (fits_below_20_digits z Hvalid Hfits) as Hz.
  unfold numeral. destruct (Z.ltb_spec z 0) as [Hneg | Hnonneg].
  - destruct (numeral_digits_head 20 (- z) "") as (d & rest & Hd & Hhead); [lia..|].
    destruct (digits_numeral_digits 20 (- z) "" 0) as (len & _ & Hread).
    { change (Z.of_nat 20) with 20. lia. }
    remember (numeral_digits 20 (- z) "") as s eqn:Hs. clear Hs.
    unfold Atoi. cbn [Ascii.eqb Bool.eqb orb]. rewrite Hread.
    destruct s; [discriminate Hhead|]. cbn [digits].
    replace (0 * 10 ^ len + - z) with (- z) by lia.
    by rewrite Z.opp_involutive, Hfits.
  - destruct (numeral_digits_head 20 z "") as (d & rest & Hd & Hhead); [lia..|].
    destruct (digits_numeral_digits 20 z "" 0) as (len & _ & Hread).
    { change (Z.of_nat 20) with 20. lia. }
    destruct (digit_char_no_sign d Hd) as [Hminus Hplus].
    remember (numeral_digits 20 z "") as s eqn:Hs. clear Hs. subst s.
    unfold Atoi. rewrite Hminus, Hplus. cbn [orb]. rewrite Hread. cbn [digits].
    replace (0 * 10 ^ len + z) with z by lia. by rewrite Hfits.
Qed.

(** ** Room for the records *)

Lemma addressable_room capacity :
  valid_intSize intSize → addressable intSize capacity →
  Z.of_nat capacity + 1 < MaxInt intSize.
Proof.
  unfold addressable, entryBytes, MaxInt. intros [-> | ->] Hroom.
  - change (6 * (32 / 8)) with 24 in Hroom.
    change (2 ^ 32) with 4294967296 in Hroom.
    change (2 ^ (32 - 1)) with 2147483648. lia.
  - change (6 * (64 / 8)) with 48 in Hroom.
    change (2 ^ 64) with 18446744073709551616 in Hroom.
    change (2 ^ (64 - 1)) with 9223372036854775808. lia.
Qed.

(** ** The process and its memory *)

Lemma exec_cons capacity c calls st :
  exec capacity (c :: calls) st =
  if (size (books (call c st).1) <=? capacity)%nat then
    ((exec capacity calls (call c st).1).1,
     (call c st).2 :: (exec capacity calls (call c st).1).2)
  else (None, []).
Proof.
  cbn [exec]. destruct (call c st) as [st1 o]. cbn [fst snd].
  destruct (size (books st1) <=? capacity)%nat; [|done].
  by destruct (exec capacity calls st1).
Qed.

Lemma exec_app capacity calls1 calls2 st st1 :
  (exec capacity calls1 st).1 = Some st1 →
  exec capacity (calls1 ++ calls2) st =
  ((exec capacity calls2 st1).1,
   (exec capacity calls1 st).2 ++ (exec capacity calls2 st1).2).
Proof.
  revert st. induction calls1 as [|c calls1 IH]; intros st.
  - simpl. intros [= ->]. by destruct (exec capacity calls2 st1).
  - rewrite <- app_comm_cons, !exec_cons.
    destruct (size (books (call c st).1) <=? capacity)%nat; [|done].
    cbn [fst snd]. intros Hrest. by rewrite (IH _ Hrest).
Qed.

Lemma call_create_undecodable m path body st :
  json_decode body = None →
  (call (OpCreate, request m path body) st).1 = st.
Proof. intros Hbody. unfold call. simpl. unfold CreateBook. simpl. by rewrite Hbody. Qed.

(** A run of [Create]s in a process with room for fewer than [MaxInt]
    records, from a registry whose counter is one more than the number of
    its records and above all of their ids: the ids it returns are
    consecutive from the counter, and every registry it reaches is of that
    kind again. *)
Lemma exec_creates capacity bodies : ∀ st,
  0 < intSize →
  Z.of_nat capacity + 1 < MaxInt intSize →
  nextID st = 1 + Z.of_nat (size (books st)) →
  (∀ k, k ∈ dom (books st) → k < nextID st) →
  (size (books st) ≤ capacity)%nat →
  created_ids (exec capacity (creates bodies) st).2 =
    seqZ (nextID st)
      (Z.of_nat (length (created_ids (exec capacity (creates bodies) st).2))) ∧
  (∀ st', (exec capacity (creates bodies) st).1 = Some st' →
     nextID st' = 1 + Z.of_nat (size (books st')) ∧
     (size (books st') ≤ capacity)%nat) ∧
  ((size (books st) + length bodies ≤ capacity)%nat →
   Forall (λ body, is_Some (json_decode body)) bodies →
   created_ids (exec capacity (creates bodies) st).2 =
     seqZ (nextID st) (Z.of_nat (length bodies))).
Proof.
  induction bodies as [|body bodies IH]; intros st Hpos Hroom Hcount Hkeys Hsize.
  - simpl. split; [done|]. split; [|done]. by intros st' [= <-].
  - pose proof (pow2_half_pos Hpos) as Hhalf.
    change (creates (body :: bodies))
      with ((OpCreate, request MethodPost "/books" body) :: creates bodies).
    set (c := (OpCreate, request MethodPost "/books" body)).
    rewrite exec_cons.
    pose proof (call_nextID c st) as Hnext.
    pose proof (call_created_id c st) as Hid.
    unfold c in Hnext, Hid. rewrite assigning_create in Hnext, Hid. fold c in Hnext, Hid.
    destruct (json_decode body) as [b|] eqn:Hbody.
    + destruct (call_books_assigning c st) as (b' & _ & Hbooks).
      { unfold c. by rewrite assigning_create, Hbody. }
      rewrite wrap_fits in Hnext by (unfold MinInt, MaxInt in *; lia).
      assert (books st !! nextID st = None) as Hfresh.
      { apply not_elem_of_dom. intros Hin%Hkeys. lia. }
      assert (size (books (call c st).1) = S (size (books st))) as Hgrown
        by (rewrite Hbooks; by apply map_size_insert_None).
      destruct (Nat.leb_spec (size (books (call c st).1)) capacity) as [Hfit | Hfull].
      * destruct (IH (call c st).1 Hpos Hroom) as (Hids & Hreach & Hall).
        { rewrite Hnext, Hgrown. lia. }
        { intros k. rewrite Hbooks, dom_insert_L, elem_of_union, elem_of_singleton.
          intros [-> | Hk%Hkeys]; lia. }
        { done. }
        cbn [fst snd]. rewrite created_ids_cons, Hid. split; [|split].
        -- rewrite Hids at 1. rewrite Hnext. cbn [length].
           rewrite (seqZ_cons (nextID st)) by lia. do 2 f_equal; lia.
        -- exact Hreach.
        -- intros Hfew [_ Hrest]%Forall_cons. rewrite Hall; [|simpl in Hfew; lia|done].
           rewrite Hnext. cbn [length].
           rewrite (seqZ_cons (nextID st)) by lia. do 2 f_equal; lia.
      * cbn [fst snd]. split; [done|]. split; [done|].
        intros Hfew. simpl in Hfew. lia.
    + assert ((call c st).1 = st) as Hsame
        by (unfold c; by apply call_create_undecodable).
      rewrite Hsame in *.
      destruct (Nat.leb_spec (size (books st)) capacity) as [_ | Hfull]; [|lia].
      destruct (IH st Hpos Hroom Hcount Hkeys Hsize) as (Hids & Hreach & _).
      cbn [fst snd]. rewrite created_ids_cons, Hid. split; [done|]. split; [done|].
      intros _ [[b Hb] _]%Forall_cons. congruence.
Qed.

(** C1: a [Create] whose body decodes stores the decoded title and author
    under the current counter, with that counter as id whatever id the body
    carried, moves the counter on by one and answers 201 with the stored
    record.  Hence, for every sequence of [Create]s served from the initial
    registry, however long, the ids returned are exactly 1, 2, 3, ... in
    order, strictly increasing and without repetition.  The records all
    stay in the map, so the process runs out of memory before the counter
    comes near [MaxInt]: the statement holds for a process with room for
    any number of records that its address space can hold, and a process
    with room for all the records of the sequence returns an id for each. *)
Theorem creates_count_from_one capacity :
  valid_intSize intSize →
  addressable intSize capacity →
  (∀ bodies st m path body b,
     (exec capacity (creates bodies) initial).1 = Some st →
     json_decode body = Some b →
     let new := {| ID := nextID st; Title := Title b; Author := Author b |} in
     CreateBook newResponseWriter (request m path body) st =
       ({| books := <[nextID st := new]> (books st); nextID := nextID st + 1 |},
        Returned (jsonResponse StatusCreated (marshalBook new)))) ∧
  (∀ bodies,
     let ids := created_ids (exec capacity (creates bodies) initial).2 in
     ids = seqZ 1 (Z.of_nat (length ids)) ∧ strictly_increasing ids ∧ NoDup ids) ∧
  (∀ bodies,
     (length bodies ≤ capacity)%nat →
     Forall (λ body, is_Some (json_decode body)) bodies →
     created_ids (exec capacity (creates bodies) initial).2 =
       seqZ 1 (Z.of_nat (length bodies))).
Proof.
  intros Hvalid Hmemory.
  pose proof (valid_intSize_pos Hvalid) as Hpos.
  pose proof (addressable_room capacity Hvalid Hmemory) as Hroom.
  pose proof (pow2_half_pos Hpos) as Hhalf.
  assert (∀ bodies,
    created_ids (exec capacity (creates bodies) initial).2 =
      seqZ 1 (Z.of_nat (length (created_ids (exec capacity (creates bodies) initial).2))) ∧
    (∀ st', (exec capacity (creates bodies) initial).1 = Some st' →
       nextID st' = 1 + Z.of_nat (size (books st')) ∧
       (size (books st') ≤ capacity)%nat) ∧
    ((size (books initial) + length bodies ≤ capacity)%nat →
     Forall (λ body, is_Some (json_decode body)) bodies →
     created_ids (exec capacity (creates bodies) initial).2 =
       seqZ 1 (Z.of_nat (length bodies)))) as Hrun.
  { intros bodies. apply (exec_creates capacity bodies initial); try done.
    simpl. rewrite map_size_empty. lia. }
  split; [|split].
  - intros bodies st m path body b Hst Hbody new.
    destruct (Hrun bodies) as (_ & Hreach & _).
    destruct (Hreach st Hst) as [Hcount Hsize].
    unfold CreateBook. simpl Body. rewrite Hbody. simpl.
    rewrite sendJSON_fresh, wrap_fits; [done|done|].
    unfold MinInt, MaxInt in *. lia.
  - intros bodies ids. destruct (Hrun bodies) as (Hids & _ & _).
    subst ids. split; [done|]. rewrite Hids.
    split; [apply seqZ_increasing|apply NoDup_seqZ].
  - intros bodies Hfew Hbodies. destruct (Hrun bodies) as (_ & _ & Hall).
    apply Hall; [|done]. simpl. by rewrite map_size_empty.
Qed.

(** ** The counter along arbitrary runs *)

(** A process that serves all of its calls does what [run] does. *)
Lemma exec_run capacity calls : ∀ st st',
  (exec capacity calls st).1 = Some st' →
  exec capacity calls st = (Some (run calls st).1, (run calls st).2).
Proof.
  induction calls as [|c calls IH]; intros st st'; [done|].
  rewrite exec_cons, run_cons.
  destruct (size (books (call c st).1) <=? capacity)%nat; [|done].
  cbn [fst snd]. intros Hrest. by rewrite (IH _ _ Hrest).
Qed.

(** The ids a run hands out are the counter, the counter plus one, and so
    on, each wrapped around; the counter ends at the start plus the number
    of ids handed out, wrapped around. *)
Lemma run_ids_wrap calls : ∀ st,
  0 < intSize →
  MinInt intSize ≤ nextID st ≤ MaxInt intSize →
  created_ids (run calls st).2 =
    (λ j, wrap intSize (nextID st + j)) <$> seqZ 0 (Z.of_nat (assigned calls)) ∧
  nextID (run calls st).1 = wrap intSize (nextID st + Z.of_nat (assigned calls)).
Proof.
  induction calls as [|c calls IH]; intros st Hpos Hst.
  - simpl. split; [done|]. rewrite Z.add_0_r. by rewrite wrap_fits.
  - rewrite run_cons. cbn [fst snd]. rewrite created_ids_cons, call_created_id.
    pose proof (call_nextID c st) as Hnext. cbn [assigned].
    destruct (assigning c).
    + destruct (IH (call c st).1 Hpos) as [Hids Hend].
      { rewrite Hnext. by apply wrap_range. }
      rewrite Hids, Hend, Hnext. split.
      * rewrite (seqZ_cons 0 (Z.of_nat (1 + assigned calls))) by lia.
        replace (Z.pred (Z.of_nat (1 + assigned calls))) with (Z.of_nat (assigned calls))
          by lia.
        rewrite fmap_cons, Z.add_0_r. rewrite (wrap_fits (nextID st)) by done. f_equal.
        change (Z.succ 0) with 1. rewrite <- (fmap_add_seqZ 1 0), <- list_fmap_compose.
        apply list_fmap_ext. intros _ j _. simpl.
        rewrite wrap_add by done. f_equal. lia.
      * rewrite wrap_add by done. f_equal. lia.
    + destruct (IH (call c st).1 Hpos) as [Hids Hend]; [by rewrite Hnext|].
      by rewrite Hids, Hend, Hnext.
Qed.

Lemma call_create_decodable body b st :
  json_decode body = Some b →
  call (OpCreate, request MethodPost "/books" body) st =
    ({| books := <[nextID st := set_ID (nextID st) b]> (books st);
        nextID := wrap intSize (nextID st + 1) |},
     Returned (jsonResponse StatusCreated (marshalBook (set_ID (nextID st) b)))).
Proof.
  intros Hbody. unfold call. simpl. unfold CreateBook. simpl.
  by rewrite Hbody, sendJSON_fresh.
Qed.

Lemma call_delete_stored id b st :
  valid_intSize intSize →
  fits intSize id = true →
  books st !! id = Some b →
  (call (OpDelete, request MethodDelete (bookPath (numeral id)) "") st).1 =
    {| books := delete id (books st); nextID := nextID st |} ∧
  created_id (call (OpDelete, request MethodDelete (bookPath (numeral id)) "") st).2 = None.
Proof.
  intros Hvalid Hfits Hstored. unfold call. cbn [fst snd handler].
  unfold DeleteBook. cbn [Path request].
  by rewrite slice_from_bookPath, (Atoi_numeral id Hvalid Hfits), Hstored.
Qed.

(** [n] rounds of creating a record and deleting it, served by a process
    with room for one record, on an empty map: the map is empty again, the
    counter has moved on by [n], wrapping around, and the ids returned are
    the values the counter went through. *)
Lemma exec_churn capacity body b rest (n : nat) : ∀ id,
  valid_intSize intSize →
  (1 ≤ capacity)%nat →
  json_decode body = Some b →
  fits intSize id = true →
  (exec capacity (churn body id n ++ rest) {| books := ∅; nextID := id |}).1 =
    (exec capacity rest {| books := ∅; nextID := wrap intSize (id + Z.of_nat n) |}).1 ∧
  created_ids (exec capacity (churn body id n ++ rest) {| books := ∅; nextID := id |}).2 =
    ((λ j, wrap intSize (id + j)) <$> seqZ 0 (Z.of_nat n)) ++
    created_ids
      (exec capacity rest {| books := ∅; nextID := wrap intSize (id + Z.of_nat n) |}).2.
Proof.
  induction n as [|n IH]; intros id Hvalid Hcap Hbody Hfits;
    pose proof (valid_intSize_pos Hvalid) as Hpos.
  - assert (wrap intSize (id + Z.of_nat 0) = id) as ->; [|done].
    rewrite Z.add_0_r. apply wrap_fits; [done|].
    unfold fits in Hfits. apply andb_true_iff in Hfits as [? ?]. lia.
  - cbn [churn]. rewrite <- !app_comm_cons.
    rewrite exec_cons, (call_create_decodable body b _ Hbody).
    cbn [fst snd books nextID].
    rewrite insert_empty, map_size_singleton.
    destruct (Nat.leb_spec 1 capacity) as [_|]; [|lia].
    rewrite exec_cons.
    destruct (call_delete_stored id (set_ID id b)
                {| books := {[id := set_ID id b]}; nextID := wrap intSize (id + 1) |}
                Hvalid Hfits) as [Hst Hnone].
    { apply lookup_singleton_eq. }
    rewrite Hst. cbn [books nextID]. rewrite delete_singleton_eq, map_size_empty.
    cbn [Nat.leb fst snd].
    rewrite !created_ids_cons, Hnone.
    change (created_id (Returned (jsonResponse StatusCreated (marshalBook (set_ID id b)))))
      with (Some id).
    destruct (IH (wrap intSize (id + 1)) Hvalid Hcap Hbody) as [IHst IHids].
    { pose proof (wrap_range (id + 1) Hpos). unfold fits.
      apply andb_true_iff. split; apply Z.leb_le; lia. }
    rewrite IHst, IHids, wrap_add by done.
    replace (id + 1 + Z.of_nat n) with (id + Z.of_nat (S n)) by lia.
    split; [done|].
    rewrite (seqZ_cons 0 (Z.of_nat (S n))) by lia.
    replace (Z.pred (Z.of_nat (S n))) with (Z.of_nat n) by lia.
    rewrite fmap_cons, Z.add_0_r. rewrite (wrap_fits id); [|done|].
    + change (Z.succ 0) with 1. rewrite <- (fmap_add_seqZ 1 0), <- list_fmap_compose.
      rewrite <- app_comm_cons. do 2 f_equal.
      apply list_fmap_ext. intros _ j _. simpl. rewrite wrap_add by done. f_equal. lia.
    + unfold fits in Hfits. apply andb_true_iff in Hfits as [? ?]. lia.
Qed.

Lemma wrap_period z : 0 < intSize → wrap intSize (z + 2 ^ intSize) = wrap intSize z.
Proof.
  intros Hpos. unfold wrap. f_equal.
  replace (z + 2 ^ intSize + 2 ^ (intSize - 1))
    with (z + 2 ^ (intSize - 1) + 1 * 2 ^ intSize) by lia.
  apply Z_mod_plus_full.
Qed.

Lemma two_fits : valid_intSize intSize → MinInt intSize ≤ 2 ≤ MaxInt intSize.
Proof. by intros [-> | ->]; vm_compute. Qed.

Lemma fits_one : valid_intSize intSize → fits intSize 1 = true.
Proof. by intros [-> | ->]; vm_compute. Qed.

Lemma exec_one_create capacity body b id :
  (1 ≤ capacity)%nat →
  json_decode body = Some b →
  exec capacity [(OpCreate, request MethodPost "/books" body)] {| books := ∅; nextID := id |} =
    (Some {| books := {[id := set_ID id b]}; nextID := wrap intSize (id + 1) |},
     [Returned (jsonResponse StatusCreated (marshalBook (set_ID id b)))]).
Proof.
  intros Hcap Hbody.
  rewrite exec_cons, (call_create_decodable body b _ Hbody).
  cbn [fst snd books nextID]. rewrite insert_empty, map_size_singleton.
  by destruct (Nat.leb_spec 1 capacity) as [_|]; [|lia].
Qed.

(** A process with room for one record serves [MaxInt - 1] rounds of
    creating a record and deleting it; they leave the counter at [MaxInt],
    and the [Create] that follows takes it to [MinInt]. *)
Lemma churn_counter_wraps capacity body b (n : nat) :
  valid_intSize intSize →
  (1 ≤ capacity)%nat →
  json_decode body = Some b →
  Z.of_nat n = MaxInt intSize - 1 →
  (exec capacity (churn body 1 n) initial).1 =
    Some {| books := ∅; nextID := MaxInt intSize |} ∧
  (exec capacity (churn body 1 n ++ [(OpCreate, request MethodPost "/books" body)])
     initial).1 =
    Some {| books := {[MaxInt intSize := set_ID (MaxInt intSize) b]};
            nextID := MinInt intSize |}.
Proof.
  intros Hvalid Hcap Hbody Hn.
  pose proof (valid_intSize_pos Hvalid) as Hpos.
  pose proof (one_fits Hvalid) as Hone.
  assert (wrap intSize (1 + Z.of_nat n) = MaxInt intSize) as Hend.
  { rewrite Hn. replace (1 + (MaxInt intSize - 1)) with (MaxInt intSize) by lia.
    apply wrap_fits; [done|lia]. }
  unfold initial. split.
  - rewrite <- (app_nil_r (churn body 1 n)).
    destruct (exec_churn capacity body b [] n 1 Hvalid Hcap Hbody (fits_one Hvalid))
      as [-> _].
    by rewrite Hend.
  - destruct (exec_churn capacity body b [(OpCreate, request MethodPost "/books" body)]
                n 1 Hvalid Hcap Hbody (fits_one Hvalid)) as [-> _].
    rewrite Hend, (exec_one_create capacity body b _ Hcap Hbody). cbn [fst].
    by rewrite wrap_overflow.
Qed.

(** After [2 ^ intSize] such rounds the counter is back at 1: the [Create]
    that follows returns the id that the first one returned. *)
Lemma churn_reuses_first_id capacity body b (n : nat) :
  valid_intSize intSize →
  (1 ≤ capacity)%nat →
  json_decode body = Some b →
  Z.of_nat n = 2 ^ intSize →
  (exec capacity (churn body 1 n ++ [(OpCreate, request MethodPost "/books" body)])
     initial).1 =
    Some {| books := {[1 := set_ID 1 b]}; nextID := 2 |} ∧
  ∃ between,
    created_ids
      (exec capacity (churn body 1 n ++ [(OpCreate, request MethodPost "/books" body)])
         initial).2 = 1 :: between ++ [1].
Proof.
  intros Hvalid Hcap Hbody Hn.
  pose proof (valid_intSize_pos Hvalid) as Hpos.
  pose proof (one_fits Hvalid) as Hone.
  pose proof (pow2_half_pos Hpos) as Hhalf.
  pose proof (pow2_intSize Hpos) as Hdouble.
  assert (wrap intSize (1 + Z.of_nat n) = 1) as Hend.
  { rewrite Hn, wrap_period by done. by apply wrap_fits. }
  unfold initial.
  destruct (exec_churn capacity body b [(OpCreate, request MethodPost "/books" body)]
              n 1 Hvalid Hcap Hbody (fits_one Hvalid)) as [-> ->].
  rewrite Hend, (exec_one_create capacity body b _ Hcap Hbody). cbn [fst snd].
  split.
  - rewrite wrap_fits; [done|done|]. exact (two_fits Hvalid).
  - exists ((λ j, wrap intSize (1 + j)) <$> seqZ 1 (Z.pred (Z.of_nat n))).
    rewrite (seqZ_cons 0 (Z.of_nat n)) by lia.
    rewrite fmap_cons, Z.add_0_r. rewrite (wrap_fits 1) by done.
    reflexivity.
Qed.

(** C9 (amended): [List], [Get], [Update] and [Delete] leave the counter as
    it is, and [Create] leaves it or moves it on by one, wrapping around,
    which below [MaxInt] is the plain successor.  Hence, along every sequence
    of operations from the initial registry, whatever it deletes in between:
    the counter never decreases as long as the sequence assigns fewer than
    [MaxInt] ids, and no id is assigned twice as long as it assigns at most
    [2 ^ intSize] of them. *)
Theorem counter_never_reuses :
  valid_intSize intSize →
  (∀ op r st, op ≠ OpCreate → nextID (call (op, r) st).1 = nextID st) ∧
  (∀ r st, nextID (call (OpCreate, r) st).1 =
           match json_decode (Body r) with
           | Some _ => wrap intSize (nextID st + 1)
           | None => nextID st
           end) ∧
  (∀ z, MinInt intSize ≤ z < MaxInt intSize → wrap intSize (z + 1) = z + 1) ∧
  (∀ calls1 calls2,
     Z.of_nat (assigned (calls1 ++ calls2)) < MaxInt intSize →
     nextID (run calls1 initial).1 ≤ nextID (run (calls1 ++ calls2) initial).1) ∧
  (∀ calls,
     Z.of_nat (assigned calls) ≤ 2 ^ intSize →
     NoDup (created_ids (run calls initial).2)).
Proof.
  intros Hvalid. pose proof (valid_intSize_pos Hvalid) as Hpos.
  pose proof (one_fits Hvalid) as Hone.
  split; [|split; [|split; [|split]]].
  - intros op r st Hop. rewrite call_nextID. unfold assigning. simpl.
    by destruct op.
  - intros r st. rewrite call_nextID. unfold assigning. simpl.
    by destruct (json_decode (Body r)).
  - intros z Hz. apply wrap_fits; [done|lia].
  - intros calls1 calls2 Hfew.
    rewrite assigned_app in Hfew.
    destruct (run_counter calls1 initial Hpos) as [_ Hend1];
      [simpl nextID; lia..|].
    destruct (run_counter (calls1 ++ calls2) initial Hpos) as [_ Hend];
      [simpl nextID; rewrite ?assigned_app; lia..|].
    rewrite assigned_app in Hend. simpl nextID in Hend1, Hend.
    rewrite wrap_fits in Hend1, Hend by (done || lia). lia.
  - intros calls Hfew.
    destruct (run_ids_wrap calls initial Hpos Hone) as [-> _].
    apply NoDup_fmap_2_strong; [|apply NoDup_seqZ].
    intros x y [Hx0 Hx]%elem_of_seqZ [Hy0 Hy]%elem_of_seqZ Hwrap.
    apply (wrap_inj _ _ Hpos) in Hwrap; lia.
Qed.


(** ** What the handlers answer, and when the registry changes *)

Ltac handler_cases :=
  unfold CreateBook, GetBooks, GetBook, UpdateBook, DeleteBook;
  repeat match goal with
         | |- context [match ?x with _ => _ end] => destruct x eqn:?
         end.

(** X1: a call on a fresh writer ends in one of five ways: a panic, a JSON
    answer with status 200 or 201, the bare status 204, or a one-line
    text answer with status 400 or 404.  The handlers never answer with
    any other status and never return without a status. *)
Theorem call_answers c st :
  (call c st).2 = Panicked ∨
  (∃ v, (call c st).2 = Returned (jsonResponse StatusOK v)) ∨
  (∃ v, (call c st).2 = Returned (jsonResponse StatusCreated v)) ∨
  (call c st).2 =
    Returned {| Header := ∅; Status := Some StatusNoContent; Written := [] |} ∨
  (∃ msg, (call c st).2 = Returned (errorResponse StatusBadRequest msg)) ∨
  (∃ msg, (call c st).2 = Returned (errorResponse StatusNotFound msg)).
Proof.
  destruct c as [op r]. unfold call. simpl.
  destruct op; simpl; handler_cases; simpl;
    rewrite ?sendJSON_fresh, ?http_Error_fresh; eauto 10.
Qed.

(** X2: the registry changes only in three cases: a [Create] answered
    with 201, an [Update] answered with 200 and a [Delete] answered with
    204.  With every other answer, and with a panic, map and counter are
    what they were before the call. *)
Theorem registry_changes_only_on_success op r st :
  (call (op, r) st).1 = st ∨
  (op = OpCreate ∧ status_of (call (op, r) st).2 = Some StatusCreated) ∨
  (op = OpUpdate ∧ status_of (call (op, r) st).2 = Some StatusOK) ∨
  (op = OpDelete ∧ status_of (call (op, r) st).2 = Some StatusNoContent).
Proof.
  unfold call. simpl.
  destruct op; simpl; handler_cases; simpl; auto.
Qed.

Lemma slice_from_None n s :
  slice_from n s = None ↔ (String.length s < n)%nat.
Proof.
  unfold slice_from. destruct (Nat.leb_spec n (String.length s)).
  - split; [discriminate|lia].
  - done.
Qed.

(** X3: [GetBook], [UpdateBook] and [DeleteBook] panic exactly when the
    path is shorter than [/books/], on the slice expression that cuts the
    id segment out of it; [CreateBook] and [GetBooks] never panic. *)
Theorem panics_on_short_path op w r st :
  (handler op w r st).2 = Panicked ↔
  by_id op ∧ (String.length (Path r) < String.length "/books/")%nat.
Proof.
  rewrite <- slice_from_None. unfold by_id.
  destruct op; simpl; unfold CreateBook, GetBooks, GetBook, UpdateBook, DeleteBook;
    change (String.length "/books/") with 7%nat.
  - split; [by destruct (json_decode (Body r))|]. by intros [[?|[?|?]] _].
  - split; [done|]. by intros [[?|[?|?]] _].
  - destruct (slice_from 7 (Path r)); [|naive_solver].
    split; [|by intros [_ ?]].
    by repeat match goal with
              | |- context [match ?x with _ => _ end] => destruct x
              end.
  - destruct (slice_from 7 (Path r)); [|naive_solver].
    split; [|by intros [_ ?]].
    by repeat match goal with
              | |- context [match ?x with _ => _ end] => destruct x
              end.
  - destruct (slice_from 7 (Path r)); [|naive_solver].
    split; [|by intros [_ ?]].
    by repeat match goal with
              | |- context [match ?x with _ => _ end] => destruct x
              end.
Qed.

(** X4: the function registered for [/books] answers every method other
    than GET and POST with 405, the one registered for [/books/] every
    method other than GET, PUT and DELETE, and neither touches the
    registry then.  On a path that starts with [/books/], which is what
    its pattern matches, the second never panics. *)
Theorem other_methods_not_allowed w r st :
  (Method r ≠ MethodGet → Method r ≠ MethodPost →
     booksHandler w r st =
       (st, Returned (http_Error w "Method not allowed" StatusMethodNotAllowed))) ∧
  (Method r ≠ MethodGet → Method r ≠ MethodPut → Method r ≠ MethodDelete →
     bookHandler w r st =
       (st, Returned (http_Error w "Method not allowed" StatusMethodNotAllowed))) ∧
  (String.prefix "/books/" (Path r) = true →
     ∃ w', (bookHandler w r st).2 = Returned w').
Proof.
  split; [|split].
  - intros Hget%String.eqb_neq Hpost%String.eqb_neq.
    unfold booksHandler. by rewrite Hget, Hpost.
  - intros Hget%String.eqb_neq Hput%String.eqb_neq Hdel%String.eqb_neq.
    unfold bookHandler. by rewrite Hget, Hput, Hdel.
  - intros [seg Hseg]%prefix_bookPath.
    unfold bookHandler, GetBook, UpdateBook, DeleteBook.
    rewrite Hseg, slice_from_bookPath.
    repeat match goal with
           | |- context [match ?x with _ => _ end] => destruct x
           end; simpl; eauto.
Qed.

(** ** How the operations compose *)

(** X5: an [Update] repeated right away changes nothing more: the second
    call leaves the registry the first one produced and gives the same
    answer, whether the first succeeded or not. *)
Theorem UpdateBook_idempotent w r st :
  UpdateBook w r (UpdateBook w r st).1 = UpdateBook w r st.
Proof.
  unfold UpdateBook.
  destruct (slice_from _ _) as [idStr|]; [|done].
  destruct (Atoi intSize idStr) as [id|]; [|done].
  destruct (json_decode (Body r)) as [b|]; [|done].
  destruct (books st !! id) as [old|] eqn:Hold; simpl; [|by rewrite Hold].
  by rewrite lookup_insert_eq, insert_insert_eq.
Qed.

(** X6: a [Delete] answered with 204, repeated right away, is answered
    with 404 and leaves the registry as the first one produced it. *)
Theorem DeleteBook_twice r st :
  status_of (DeleteBook newResponseWriter r st).2 = Some StatusNoContent →
  DeleteBook newResponseWriter r (DeleteBook newResponseWriter r st).1 =
    ((DeleteBook newResponseWriter r st).1,
     Returned (errorResponse StatusNotFound "Book not found")).
Proof.
  unfold DeleteBook.
  destruct (slice_from _ _) as [idStr|]; [|done].
  destruct (Atoi intSize idStr) as [id|]; [|done].
  destruct (books st !! id) as [old|] eqn:Hold; simpl; [|done].
  intros _. by rewrite lookup_delete_eq, http_Error_fresh.
Qed.

(** X7: a call leaves every record alone but the one it is aimed at: a
    [Create] all but the one under the counter, an [Update] or a [Delete]
    all but the one under the id of its path, a [List] or a [Get] all of
    them. *)
Theorem other_records_untouched op r st k :
  (op = OpCreate → k ≠ nextID st) →
  (op = OpUpdate ∨ op = OpDelete →
     ∀ seg, slice_from (String.length "/books/") (Path r) = Some seg →
            Atoi intSize seg ≠ Some k) →
  books (call (op, r) st).1 !! k = books st !! k.
Proof.
  intros Hcreate Hid. unfold call. simpl.
  destruct op; simpl; unfold CreateBook, GetBooks, GetBook, UpdateBook, DeleteBook.
  - destruct (json_decode (Body r)); simpl; [|done].
    rewrite lookup_insert_ne; [done|]. intros Heq. by apply Hcreate.
  - done.
  - by repeat match goal with
              | |- context [match ?x with _ => _ end] => destruct x
              end.
  - destruct (slice_from _ _) as [seg|]; [|done].
    specialize (Hid (or_introl eq_refl) seg eq_refl).
    destruct (Atoi intSize seg) as [id|]; [|done].
    destruct (json_decode (Body r)); [|done].
    destruct (books st !! id); simpl; [|done].
    rewrite lookup_insert_ne; [done|]. congruence.
  - destruct (slice_from _ _) as [seg|]; [|done].
    specialize (Hid (or_intror eq_refl) seg eq_refl).
    destruct (Atoi intSize seg) as [id|]; [|done].
    destruct (books st !! id); simpl; [|done].
    rewrite lookup_delete_ne; [done|]. congruence.
Qed.

(** X8: an [Update] never changes which ids are stored nor the counter,
    whatever its answer; a [Delete] answered with 204 removes exactly the
    id of its path, so that one record fewer is stored, and leaves the
    counter alone. *)
Theorem update_delete_ids w r st :
  dom (books (UpdateBook w r st).1) = dom (books st) ∧
  nextID (UpdateBook w r st).1 = nextID st ∧
  (status_of (DeleteBook newResponseWriter r st).2 = Some StatusNoContent →
     ∃ seg id,
       slice_from (String.length "/books/") (Path r) = Some seg ∧
       Atoi intSize seg = Some id ∧
       dom (books (DeleteBook newResponseWriter r st).1) = dom (books st) ∖ {[id]} ∧
       S (size (books (DeleteBook newResponseWriter r st).1)) = size (books st) ∧
       nextID (DeleteBook newResponseWriter r st).1 = nextID st).
Proof.
  split; [|split].
  - unfold UpdateBook.
    repeat match goal with
           | |- context [match ?x with _ => _ end] => destruct x eqn:?
           end; simpl; try done.
    apply dom_insert_lookup_L. eauto.
  - unfold UpdateBook.
    by repeat match goal with
              | |- context [match ?x with _ => _ end] => destruct x eqn:?
              end.
  - unfold DeleteBook.
    destruct (slice_from _ _) as [seg|]; [|done].
    destruct (Atoi intSize seg) as [id|] eqn:Hseg; [|done].
    destruct (books st !! id) as [old|] eqn:Hold; simpl; [|done].
    intros _. exists seg, id. split; [done|]. split; [exact Hseg|].
    split; [apply dom_delete_L|]. split; [|done].
    rewrite map_size_delete, Hold. simpl.
    assert (size (books st) ≠ 0%nat); [|lia].
    intros Hzero%map_size_empty_iff. by rewrite Hzero, lookup_empty in Hold.
Qed.

(** X9: a [Create] on a registry that stores nothing under the counter,
    followed by a [Delete] of the id it returned, gives the map back as it
    was; the counter stays moved on. *)
Theorem CreateBook_then_DeleteBook m m' path seg body body' st b :
  json_decode body = Some b →
  Atoi intSize seg = Some (nextID st) →
  books st !! nextID st = None →
  DeleteBook newResponseWriter (request m' (bookPath seg) body')
    (CreateBook newResponseWriter (request m path body) st).1 =
  ({| books := books st; nextID := wrap intSize (nextID st + 1) |},
   Returned {| Header := ∅; Status := Some StatusNoContent; Written := [] |}).
Proof.
  intros Hbody Hseg Hfresh. unfold CreateBook. simpl Body. rewrite Hbody. simpl.
  unfold DeleteBook. simpl Path. rewrite slice_from_bookPath, Hseg. simpl.
  by rewrite lookup_insert_eq, delete_insert_id.
Qed.

(** ** Which ids are stored *)

(** The ids stored after a run lie between the first id it could assign
    and the last one it did, as long as the counter has not wrapped around
    before the last assignment. *)
Lemma run_keys calls : ∀ st lo next,
  0 < intSize →
  MinInt intSize ≤ next →
  lo ≤ next →
  next + Z.of_nat (assigned calls) ≤ MaxInt intSize + 1 →
  nextID st = wrap intSize next →
  (∀ k, k ∈ dom (books st) → lo ≤ k < next) →
  ∀ k, k ∈ dom (books (run calls st).1) → lo ≤ k < next + Z.of_nat (assigned calls).
Proof.
  induction calls as [|c calls IH]; intros st lo next Hpos Hmin Hlo Hroom Hnext Hkeys k.
  - simpl. rewrite Z.add_0_r. apply Hkeys.
  - rewrite run_cons. cbn [fst assigned] in Hroom |- *.
    pose proof (call_nextID c st) as Hstep.
    destruct (assigning c) eqn:Hc.
    + rewrite wrap_fits in Hnext by (done || lia).
      destruct (call_books_assigning c st Hc) as (b & _ & Hbooks).
      intros Hk.
      assert (lo ≤ k < next + 1 + Z.of_nat (assigned calls)) as Hres; [|lia].
      apply (IH (call c st).1 lo (next + 1)); try done; try lia.
      * by rewrite Hstep, Hnext.
      * intros k'. rewrite Hbooks, dom_insert_L, elem_of_union, elem_of_singleton.
        intros [-> | Hk']; [lia|]. apply Hkeys in Hk'. lia.
    + intros Hk. simpl in Hroom |- *.
      apply (IH (call c st).1 lo next); try done.
      * by rewrite Hstep.
      * intros k' Hk'. apply Hkeys. by apply (call_dom_other c st Hc).
Qed.

(** X10: after any sequence of operations from the initial registry that
    assigns at most [MaxInt] ids, every stored id is one that a [Create] of
    the sequence assigned: it lies between 1 and the number of ids
    assigned. *)
Theorem stored_ids_were_assigned calls k b :
  valid_intSize intSize →
  Z.of_nat (assigned calls) ≤ MaxInt intSize →
  books (run calls initial).1 !! k = Some b →
  1 ≤ k ≤ Z.of_nat (assigned calls).
Proof.
  intros Hvalid Hfew Hk.
  pose proof (valid_intSize_pos Hvalid) as Hpos.
  pose proof (one_fits Hvalid) as Hone.
  assert (1 ≤ k < 1 + Z.of_nat (assigned calls)); [|lia].
  apply (run_keys calls initial 1 1); try done; try lia.
  - simpl. by rewrite wrap_fits.
  - apply elem_of_dom. eauto.
Qed.

(** X11: after any sequence of operations from the initial registry that
    assigns fewer than [MaxInt] ids, nothing is stored under the counter, so
    that the next [Create] with a body that decodes overwrites no record:
    it stores one record more. *)
Theorem CreateBook_adds_a_record calls r b :
  valid_intSize intSize →
  Z.of_nat (assigned calls) < MaxInt intSize →
  json_decode (Body r) = Some b →
  books (run calls initial).1 !! nextID (run calls initial).1 = None ∧
  size (books (call (OpCreate, r) (run calls initial).1).1) =
    S (size (books (run calls initial).1)).
Proof.
  intros Hvalid Hfew Hbody.
  pose proof (valid_intSize_pos Hvalid) as Hpos.
  pose proof (one_fits Hvalid) as Hone.
  assert (books (run calls initial).1 !! nextID (run calls initial).1 = None) as Hfresh.
  { destruct (run_counter calls initial Hpos) as [_ Hend]; [simpl; lia..|].
    simpl nextID in Hend. rewrite wrap_fits in Hend by (done || lia).
    destruct (books _ !! _) as [b'|] eqn:Hk; [|done].
    apply stored_ids_were_assigned in Hk; [lia|done|lia]. }
  split; [done|].
  destruct (call_books_assigning (OpCreate, r) (run calls initial).1) as (b' & _ & ->).
  - unfold assigning. simpl. by rewrite Hbody.
  - by apply map_size_insert_None.
Qed.

(** X12: whatever a sequence of operations from the initial registry
    mixes in between (lists, gets, updates, deletes, requests that fail),
    the ids its [Create]s return are 1, 2, 3, ... without a gap: only a
    [Create] with a body that decodes uses up an id.  This holds as long as
    at most [MaxInt] ids are assigned, and below that the counter is one
    more than their number. *)
Theorem ids_without_gaps calls :
  valid_intSize intSize →
  Z.of_nat (assigned calls) ≤ MaxInt intSize →
  created_ids (run calls initial).2 = seqZ 1 (Z.of_nat (assigned calls)) ∧
  (Z.of_nat (assigned calls) < MaxInt intSize →
     nextID (run calls initial).1 = 1 + Z.of_nat (assigned calls)).
Proof.
  intros Hvalid Hfew.
  pose proof (valid_intSize_pos Hvalid) as Hpos.
  pose proof (one_fits Hvalid) as Hone.
  destruct (run_counter calls initial Hpos) as [Hids Hend]; [simpl; lia..|].
  split; [done|]. intros Hless. rewrite Hend. simpl. apply wrap_fits; [done|lia].
Qed.

Lemma run_creates_books bodies : ∀ st next,
  0 < intSize →
  MinInt intSize ≤ next →
  next + Z.of_nat (length bodies) ≤ MaxInt intSize + 1 →
  nextID st = wrap intSize next →
  Forall (λ body, is_Some (json_decode body)) bodies →
  (∀ i body b, bodies !! i = Some body → json_decode body = Some b →
     books (run (creates bodies) st).1 !! (next + Z.of_nat i) =
       Some (set_ID (next + Z.of_nat i) b)) ∧
  (∀ k, k < next → books (run (creates bodies) st).1 !! k = books st !! k) ∧
  dom (books (run (creates bodies) st).1) =
    dom (books st) ∪ list_to_set (seqZ next (Z.of_nat (length bodies))).
Proof.
  induction bodies as [|body bodies IH];
    intros st next Hpos Hmin Hroom Hnext Hbodies.
  - split; [by intros [|?]|]. split; [done|].
    cbn [length Z.of_nat]. rewrite seqZ_nil by done.
    change (books (run (creates []) st).1) with (books st).
    by rewrite list_to_set_nil, (right_id_L ∅ (∪)).
  - apply Forall_cons in Hbodies as [[b0 Hb0] Hbodies].
    change (creates (body :: bodies))
      with ((OpCreate, request MethodPost "/books" body) :: creates bodies).
    rewrite run_cons. cbn [fst length] in Hroom |- *.
    set (c := (OpCreate, request MethodPost "/books" body)).
    rewrite wrap_fits in Hnext by (done || lia).
    assert (assigning c = true) as Hc
      by (unfold c; by rewrite assigning_create, Hb0).
    pose proof (call_nextID c st) as Hstep. rewrite Hc, Hnext in Hstep.
    destruct (call_books_assigning c st Hc) as (b & Hb & Hbooks).
    simpl in Hb. rewrite Hb0 in Hb. injection Hb as <-. rewrite Hnext in Hbooks.
    destruct (IH (call c st).1 (next + 1) Hpos) as (Hnew & Hframe & Hdom);
      [lia|lia|done|done|].
    split; [|split].
    + intros [|i] body' b' Hi Hb'.
      * injection Hi as <-. rewrite Hb0 in Hb'. injection Hb' as <-.
        rewrite Z.add_0_r, Hframe, Hbooks by lia. apply lookup_insert_eq.
      * replace (next + Z.of_nat (S i)) with (next + 1 + Z.of_nat i) by lia.
        by apply (Hnew i body').
    + intros k Hk. rewrite Hframe, Hbooks by lia. apply lookup_insert_ne. lia.
    + rewrite Hdom, Hbooks, dom_insert_L.
      rewrite (seqZ_cons next) by lia.
      replace (Z.pred (Z.of_nat (S (length bodies)))) with (Z.of_nat (length bodies)) by lia.
      replace (Z.succ next) with (next + 1) by lia.
      rewrite list_to_set_cons, (comm_L (∪) {[next]} (dom (books st))).
      by rewrite (assoc_L (∪)).
Qed.

(** X13: after a sequence of at most [MaxInt] [Create]s with bodies that
    decode, from the initial registry, no creation is lost: as many
    records are stored as there were calls, and the record under id [i + 1]
    holds the title and the author of the body of call number [i], with
    [i + 1] for its id. *)
Theorem creates_keep_every_record bodies :
  valid_intSize intSize →
  Forall (λ body, is_Some (json_decode body)) bodies →
  Z.of_nat (length bodies) ≤ MaxInt intSize →
  size (books (run (creates bodies) initial).1) = length bodies ∧
  (∀ i body b, bodies !! i = Some body → json_decode body = Some b →
     books (run (creates bodies) initial).1 !! (1 + Z.of_nat i) =
       Some {| ID := 1 + Z.of_nat i; Title := Title b; Author := Author b |}).
Proof.
  intros Hvalid Hbodies Hlen.
  pose proof (valid_intSize_pos Hvalid) as Hpos.
  pose proof (one_fits Hvalid) as Hone.
  destruct (run_creates_books bodies initial 1 Hpos) as (Hnew & _ & Hdom);
    [lia|lia|simpl; by rewrite wrap_fits|done|].
  split; [|exact Hnew].
  rewrite <- (size_dom (D := gset Z)), Hdom. simpl books.
  rewrite dom_empty_L, (left_id_L ∅ (∪)), size_list_to_set by apply NoDup_seqZ.
  rewrite length_seqZ. lia.
Qed.

(** ** Reading a registry that was reached *)

(** X14: on a registry reached by any sequence of operations, a [Get] of
    an id that is not stored answers 404, and a [Get] of a stored id
    answers 200 with a record that carries the id asked for; in both cases
    the registry is left as it was. *)
Theorem GetBook_answers_the_id_asked calls m seg body id :
  Atoi intSize seg = Some id →
  (books (run calls initial).1 !! id = None ∧
   GetBook newResponseWriter (request m (bookPath seg) body) (run calls initial).1 =
     ((run calls initial).1, Returned (errorResponse StatusNotFound "Book not found"))) ∨
  (∃ title author,
     books (run calls initial).1 !! id =
       Some {| ID := id; Title := title; Author := author |} ∧
     GetBook newResponseWriter (request m (bookPath seg) body) (run calls initial).1 =
       ((run calls initial).1,
        Returned (jsonResponse StatusOK
                    (JObj [("id", JNum id); ("title", JStr title);
                           ("author", JStr author)]%string)))).
Proof.
  intros Hseg. unfold GetBook. simpl Path. rewrite slice_from_bookPath, Hseg.
  destruct (books (run calls initial).1 !! id) as [[id' title author]|] eqn:Hid.
  - right. exists title, author.
    pose proof (run_keyed calls initial keyed_initial id _ Hid) as Hkey.
    simpl in Hkey. subst id'. split; [done|]. by rewrite sendJSON_fresh.
  - left. split; [done|]. by rewrite http_Error_fresh.
Qed.

Section Listing.

Hypothesis range_order_perm : ∀ m, range_order m ≡ₚ map_to_list m.

(** X15: on a registry reached by any sequence of operations and holding
    at least one book, [GetBooks] answers 200 with an array that has one
    element for each stored record and no other: as many elements as
    records, no id twice, and a book is in it exactly when it is stored
    under its id.  The registry is left as it was. *)
Theorem GetBooks_lists_each_record_once calls r :
  books (run calls initial).1 ≠ ∅ →
  ∃ l,
    GetBooks newResponseWriter r (run calls initial).1 =
      ((run calls initial).1,
       Returned (jsonResponse StatusOK (JArr (map marshalBook l)))) ∧
    length l = size (books (run calls initial).1) ∧
    NoDup (ID <$> l) ∧
    (∀ b, b ∈ l ↔ books (run calls initial).1 !! ID b = Some b).
Proof.
  pose proof (run_keyed calls initial keyed_initial) as Hkeyed.
  set (st := (run calls initial).1) in *. intros Hne.
  pose proof (range_order_perm (books st)) as Hperm.
  assert (∀ k b, (k, b) ∈ range_order (books st) ↔ books st !! k = Some b) as Hin.
  { intros k b. by rewrite Hperm, elem_of_map_to_list. }
  exists (range_order (books st)).*2. split; [|split; [|split]].
  - unfold GetBooks. rewrite fold_append_nil, sendJSON_fresh.
    destruct (range_order (books st)) as [|kv l] eqn:Hl; [|done].
    exfalso. apply Hne, map_to_list_empty_iff, Permutation_nil_r. by rewrite <- Hperm.
  - by rewrite length_fmap, Hperm, length_map_to_list.
  - replace (ID <$> (range_order (books st)).*2) with (range_order (books st)).*1.
    + rewrite Hperm. apply NoDup_fst_map_to_list.
    + rewrite <- list_fmap_compose. apply list_fmap_ext.
      intros i [k b] Hi%list_elem_of_lookup_2. simpl.
      symmetry. by apply Hkeyed, Hin.
  - intros b. rewrite list_elem_of_fmap. split.
    + intros ([k b'] & -> & Hkb). simpl. apply Hin in Hkb.
      by rewrite (Hkeyed k b' Hkb).
    + intros Hb. exists (ID b, b). split; [done|]. by apply Hin.
Qed.

End Listing.

(** ** The mutex *)

Ltac go_step :=
  unfold mbind, Go_bind, mret, Go_ret, Lock, Unlock, load, store, defer, panic;
  simpl.

(** X16: run with the mutex free, a handler written out with its locking
    ends with the mutex free again, on every path through it, early
    returns included; it never waits, never unlocks a free mutex and never
    touches [books] or [nextID] without holding the mutex; and what it does
    to the registry and what it answers is what the handler of the
    sequential model does. *)
Theorem handlers_hold_the_mutex op w r st :
  handler_mu op w r {| shared := st; mu := false |} =
    ({| shared := (handler op w r st).1; mu := false |},
     result (handler op w r st).2).
Proof.
  destruct op; simpl;
    unfold CreateBook_mu, GetBooks_mu, GetBook_mu, UpdateBook_mu, DeleteBook_mu,
      CreateBook, GetBooks, GetBook, UpdateBook, DeleteBook;
    repeat match goal with
           | |- context [match slice_from ?n ?p with _ => _ end] =>
               destruct (slice_from n p)
           | |- context [match Atoi ?n ?s with _ => _ end] => destruct (Atoi n s)
           | |- context [match json_decode ?b with _ => _ end] =>
               destruct (json_decode b)
           end; go_step; try done;
    by destruct (books st !! _).
Qed.

(** X17: run while the mutex is held by someone else, a handler neither
    reads nor changes the registry: the world is left as it was, the result
    is the same whatever the registry holds, and it is either the wait in
    [mu.Lock()], or a panic or a 400 that the handler reaches before it
    locks. *)
Theorem held_mutex_keeps_handlers_out op w r st st' :
  (handler_mu op w r {| shared := st; mu := true |}).1 = {| shared := st; mu := true |} ∧
  (handler_mu op w r {| shared := st; mu := true |}).2 =
    (handler_mu op w r {| shared := st'; mu := true |}).2 ∧
  ((handler_mu op w r {| shared := st; mu := true |}).2 = inr Blocked ∨
   (handler_mu op w r {| shared := st; mu := true |}).2 = inr Panic ∨
   ∃ msg, (handler_mu op w r {| shared := st; mu := true |}).2 =
            inl (http_Error w msg StatusBadRequest)).
Proof.
  destruct op; simpl;
    unfold CreateBook_mu, GetBooks_mu, GetBook_mu, UpdateBook_mu, DeleteBook_mu;
    repeat match goal with
           | |- context [match slice_from ?n ?p with _ => _ end] =>
               destruct (slice_from n p)
           | |- context [match Atoi ?n ?s with _ => _ end] => destruct (Atoi n s)
           | |- context [match json_decode ?b with _ => _ end] =>
               destruct (json_decode b)
           end; go_step; eauto 10.
Qed.

End Handlers.

(** * Instances

    The statements above at concrete requests, with [decodeTable] for the
    decoder, [map_to_list] for the order of traversal and either width of
    [int]. *)

Lemma creates_count_from_one_witness :
  valid_intSize 64 ∧ addressable 64 1000 ∧
  (exec 64 decodeTable map_to_list 1000 (creates ["{}"%string]) initial).1 =
    Some {| books := {[1 := set_ID 1 zeroBook]}; nextID := 2 |} ∧
  CreateBook 64 decodeTable newResponseWriter (request MethodPost "/books" sampleBody)
      {| books := {[1 := set_ID 1 zeroBook]}; nextID := 2 |} =
    ({| books := <[2 := {| ID := 2; Title := "Emma"; Author := "Austen" |}]>
                   {[1 := set_ID 1 zeroBook]};
        nextID := 3 |},
     Returned (jsonResponse StatusCreated
                 (marshalBook {| ID := 2; Title := "Emma"; Author := "Austen" |}))) ∧
  created_ids (exec 64 decodeTable map_to_list 1000
                 (creates ["{}"; sampleBody; "{}"]%string) initial).2 = [1; 2; 3].
Proof.
  assert (addressable 64 1000) as Hmemory by (by vm_compute).
  pose proof (creates_count_from_one 64 decodeTable map_to_list 1000
                (or_intror eq_refl) Hmemory) as [Hstep [_ Hrun]].
  split; [by right|]. split; [exact Hmemory|]. split; [reflexivity|]. split.
  - exact (Hstep ["{}"%string] _ MethodPost "/books"%string sampleBody _ eq_refl eq_refl).
  - refine (Hrun ["{}"; sampleBody; "{}"]%string _ _).
    + simpl. lia.
    + repeat constructor; by eexists.
Defined.

(** C2: [GET /books] on the initial registry answers 200 with the JSON
    value [null], which is not the empty array. *)
Lemma GetBooks_initial_null :
  GetBooks map_to_list newResponseWriter (request MethodGet "/books" "") initial =
    (initial, Returned (jsonResponse StatusOK JNull)) ∧
  JNull ≠ JArr [].
Proof. split; [reflexivity|discriminate]. Qed.

Lemma GetBooks_empty_null_witness :
  books initial = ∅ ∧
  GetBooks map_to_list newResponseWriter (request MethodGet "/books" "") initial =
    (initial, Returned (jsonResponse StatusOK JNull)).
Proof.
  split; [reflexivity|].
  apply (GetBooks_empty_null map_to_list); [intros m; reflexivity|reflexivity].
Defined.

(** C3: the segment [-1] parses, to a negative id, so that [Get],
    [Update] and [Delete] on it go on to look the id up and answer 404, not
    400. *)
Lemma negative_segment_not_found :
  Atoi 64 "-1" = Some (-1) ∧
  GetBook 64 newResponseWriter (request MethodGet (bookPath "-1") "") initial =
    (initial, Returned (errorResponse StatusNotFound "Book not found")) ∧
  UpdateBook 64 decodeTable newResponseWriter (request MethodPut (bookPath "-1") "{}") initial =
    (initial, Returned (errorResponse StatusNotFound "Book not found")) ∧
  DeleteBook 64 newResponseWriter (request MethodDelete (bookPath "-1") "") initial =
    (initial, Returned (errorResponse StatusNotFound "Book not found")) ∧
  StatusNotFound ≠ StatusBadRequest.
Proof. repeat split; try reflexivity. discriminate. Qed.

Lemma bad_id_segment_witness :
  Atoi 64 "12a" = None ∧
  handler 64 decodeTable map_to_list OpDelete newResponseWriter
    (request MethodDelete (bookPath "12a") "") oneBook =
    (oneBook, Returned (errorResponse StatusBadRequest "Invalid book ID")).
Proof.
  split; [reflexivity|].
  apply (proj1 (bad_id_segment 64 decodeTable map_to_list)); [|reflexivity].
  right. by right.
Defined.

Lemma undecodable_body_unchanged_witness :
  decodeTable "{" = None ∧
  CreateBook 64 decodeTable newResponseWriter (request MethodPost "/books" "{") oneBook =
    (oneBook, Returned (errorResponse StatusBadRequest "Invalid input")) ∧
  UpdateBook 64 decodeTable newResponseWriter (request MethodPut (bookPath "1") "{") oneBook =
    (oneBook, Returned (errorResponse StatusBadRequest "Invalid input")).
Proof.
  split; [reflexivity|].
  exact (undecodable_body_unchanged 64 decodeTable MethodPost "/books" "1" "{" oneBook eq_refl).
Defined.

Lemma UpdateBook_replaces_witness :
  Atoi 64 "1" = Some 1 ∧
  decodeTable sampleBody = Some {| ID := 99; Title := "Emma"; Author := "Austen" |} ∧
  UpdateBook 64 decodeTable newResponseWriter (request MethodPut (bookPath "1") sampleBody) oneBook =
    ({| books := <[1 := {| ID := 1; Title := "Emma"; Author := "Austen" |}]> (books oneBook);
        nextID := 2 |},
     Returned (jsonResponse StatusOK
                 (marshalBook {| ID := 1; Title := "Emma"; Author := "Austen" |}))) ∧
  UpdateBook 64 decodeTable newResponseWriter (request MethodPut (bookPath "7") sampleBody) oneBook =
    (oneBook, Returned (errorResponse StatusNotFound "Book not found")).
Proof.
  split; [reflexivity|]. split; [reflexivity|]. split.
  - refine (proj1 (proj1 (UpdateBook_replaces 64 decodeTable MethodPut MethodGet "1"
                            sampleBody "" oneBook 1 _ eq_refl eq_refl) _)).
    by eexists.
  - exact (proj2 (UpdateBook_replaces 64 decodeTable MethodPut MethodGet "7"
                    sampleBody "" oneBook 7 _ eq_refl eq_refl) eq_refl).
Defined.

Lemma CreateBook_then_GetBook_witness :
  decodeTable sampleBody = Some {| ID := 99; Title := "Emma"; Author := "Austen" |} ∧
  Atoi 64 "2" = Some (nextID oneBook) ∧
  GetBook 64 newResponseWriter (request MethodGet (bookPath "2") "")
    (CreateBook 64 decodeTable newResponseWriter (request MethodPost "/books" sampleBody) oneBook).1 =
    ((CreateBook 64 decodeTable newResponseWriter (request MethodPost "/books" sampleBody) oneBook).1,
     Returned (jsonResponse StatusOK
                 (marshalBook {| ID := 2; Title := "Emma"; Author := "Austen" |}))).
Proof.
  split; [reflexivity|]. split; [reflexivity|].
  exact (proj2 (CreateBook_then_GetBook 64 decodeTable MethodPost MethodGet "/books" "2"
                  sampleBody "" oneBook _ eq_refl eq_refl)).
Defined.

Lemma DeleteBook_removes_witness :
  Atoi 64 "1" = Some 1 ∧
  DeleteBook 64 newResponseWriter (request MethodDelete (bookPath "1") "") oneBook =
    ({| books := delete 1 (books oneBook); nextID := 2 |},
     Returned {| Header := ∅; Status := Some StatusNoContent; Written := [] |}) ∧
  DeleteBook 64 newResponseWriter (request MethodDelete (bookPath "7") "") oneBook =
    (oneBook, Returned (errorResponse StatusNotFound "Book not found")).
Proof.
  split; [reflexivity|]. split.
  - refine (proj1 (proj1 (DeleteBook_removes 64 MethodDelete MethodGet "1" "" "" oneBook 1
                            eq_refl) _)).
    by eexists.
  - exact (proj2 (DeleteBook_removes 64 MethodDelete MethodGet "7" "" "" oneBook 7 eq_refl)
             eq_refl).
Defined.

(** C9: a 32-bit build with room for a single record.  [2^31 - 2] rounds
    of a [Create] and the [Delete] of the record it stored leave the map
    empty and the counter at [2^31 - 1]; the [Create] that follows leaves
    the counter at [-2^31]: the counter has decreased.  After [2^32] such
    rounds the counter is back at 1, and the [Create] that follows returns
    the id 1, which the first [Create] had returned. *)
Lemma counter_wraps_under_churn :
  ((exec 32 decodeTable map_to_list 1
      (churn 32 "{}" 1 (Z.to_nat (2 ^ 31 - 2))) initial).1 =
     Some {| books := ∅; nextID := 2 ^ 31 - 1 |} ∧
   (exec 32 decodeTable map_to_list 1
      (churn 32 "{}" 1 (Z.to_nat (2 ^ 31 - 2))
         ++ [(OpCreate, request MethodPost "/books" "{}")]) initial).1 =
     Some {| books := {[2 ^ 31 - 1 := set_ID (2 ^ 31 - 1) zeroBook]};
             nextID := - 2 ^ 31 |}) ∧
  ((exec 32 decodeTable map_to_list 1
      (churn 32 "{}" 1 (Z.to_nat (2 ^ 32))
         ++ [(OpCreate, request MethodPost "/books" "{}")]) initial).1 =
     Some {| books := {[1 := set_ID 1 zeroBook]}; nextID := 2 |} ∧
   ∃ between,
     created_ids
       (exec 32 decodeTable map_to_list 1
          (churn 32 "{}" 1 (Z.to_nat (2 ^ 32))
             ++ [(OpCreate, request MethodPost "/books" "{}")]) initial).2 =
     1 :: between ++ [1]).
Proof.
  split.
  - exact (churn_counter_wraps 32 decodeTable map_to_list 1 "{}" zeroBook
             (Z.to_nat (2 ^ 31 - 2)) (or_introl eq_refl) (le_n 1) eq_refl
             (Z2Nat.id (2 ^ 31 - 2) ltac:(done))).
  - exact (churn_reuses_first_id 32 decodeTable map_to_list 1 "{}" zeroBook
             (Z.to_nat (2 ^ 32)) (or_introl eq_refl) (le_n 1) eq_refl
             (Z2Nat.id (2 ^ 32) ltac:(done))).
Qed.

Lemma counter_never_reuses_witness :
  valid_intSize 32 ∧
  nextID (call 32 decodeTable map_to_list
            (OpDelete, request MethodDelete (bookPath "1") "") oneBook).1 = nextID oneBook ∧
  nextID (run 32 decodeTable map_to_list
            [(OpCreate, request MethodPost "/books" "{}");
             (OpDelete, request MethodDelete (bookPath "1") "")] initial).1
  ≤ nextID (run 32 decodeTable map_to_list
            [(OpCreate, request MethodPost "/books" "{}");
             (OpDelete, request MethodDelete (bookPath "1") "");
             (OpCreate, request MethodPost "/books" sampleBody)] initial).1 ∧
  NoDup (created_ids (run 32 decodeTable map_to_list
            [(OpCreate, request MethodPost "/books" "{}");
             (OpDelete, request MethodDelete (bookPath "1") "");
             (OpCreate, request MethodPost "/books" sampleBody)] initial).2).
Proof.
  pose proof (counter_never_reuses 32 decodeTable map_to_list (or_introl eq_refl))
    as [Hother [_ [_ [Hcounter Hids]]]].
  split; [by left|]. split; [by apply Hother|]. split.
  - refine (Hcounter [(OpCreate, request MethodPost "/books" "{}");
                      (OpDelete, request MethodDelete (bookPath "1") "")]
                     [(OpCreate, request MethodPost "/books" sampleBody)] _).
    by vm_compute.
  - apply Hids. by vm_compute.
Defined.

Lemma UpdateBook_check_order_witness :
  Atoi 64 "7" = Some 7 ∧ decodeTable "{" = None ∧ books oneBook !! 7 = None ∧
  UpdateBook 64 decodeTable newResponseWriter (request MethodPut (bookPath "7") "{") oneBook =
    (oneBook, Returned (errorResponse StatusBadRequest "Invalid input")).
Proof.
  split; [reflexivity|]. split; [reflexivity|]. split; [reflexivity|].
  exact (proj1 (proj2 (UpdateBook_check_order 64 decodeTable MethodPut "7" "{" oneBook))
           7 eq_refl eq_refl).
Defined.

Lemma DeleteBook_twice_witness :
  status_of (DeleteBook 64 newResponseWriter (request MethodDelete (bookPath "1") "") oneBook).2 =
    Some StatusNoContent ∧
  DeleteBook 64 newResponseWriter (request MethodDelete (bookPath "1") "")
    (DeleteBook 64 newResponseWriter (request MethodDelete (bookPath "1") "") oneBook).1 =
    ((DeleteBook 64 newResponseWriter (request MethodDelete (bookPath "1") "") oneBook).1,
     Returned (errorResponse StatusNotFound "Book not found")).
Proof.
  split; [reflexivity|]. apply (DeleteBook_twice 64). reflexivity.
Defined.

Lemma other_records_untouched_witness :
  books (call 64 decodeTable map_to_list
           (OpCreate, request MethodPost "/books" sampleBody) oneBook).1 !! 1 =
  books oneBook !! 1.
Proof.
  apply (other_records_untouched 64 decodeTable map_to_list).
  - intros _. discriminate.
  - intros [Hop | Hop]; discriminate Hop.
Defined.

Lemma CreateBook_then_DeleteBook_witness :
  books oneBook !! nextID oneBook = None ∧
  DeleteBook 64 newResponseWriter (request MethodDelete (bookPath "2") "")
    (CreateBook 64 decodeTable newResponseWriter
       (request MethodPost "/books" sampleBody) oneBook).1 =
  ({| books := books oneBook; nextID := 3 |},
   Returned {| Header := ∅; Status := Some StatusNoContent; Written := [] |}).
Proof.
  split; [reflexivity|].
  exact (CreateBook_then_DeleteBook 64 decodeTable MethodPost MethodDelete "/books" "2"
           sampleBody "" oneBook _ eq_refl eq_refl eq_refl).
Defined.

Lemma stored_ids_were_assigned_witness :
  books (run 64 decodeTable map_to_list mixedCalls initial).1 !! 2 =
    Some {| ID := 2; Title := "Emma"; Author := "Austen" |} ∧
  1 ≤ 2 ≤ Z.of_nat (assigned decodeTable mixedCalls).
Proof.
  split; [reflexivity|].
  apply (stored_ids_were_assigned 64 decodeTable map_to_list mixedCalls 2
           {| ID := 2; Title := "Emma"; Author := "Austen" |}).
  - by right.
  - by vm_compute.
  - reflexivity.
Defined.

Lemma CreateBook_adds_a_record_witness :
  books (run 64 decodeTable map_to_list mixedCalls initial).1 !! 3 = None ∧
  size (books (call 64 decodeTable map_to_list
                 (OpCreate, request MethodPost "/books" "{}")
                 (run 64 decodeTable map_to_list mixedCalls initial).1).1) = 2%nat.
Proof.
  apply (CreateBook_adds_a_record 64 decodeTable map_to_list mixedCalls
           (request MethodPost "/books" "{}") zeroBook).
  - by right.
  - by vm_compute.
  - reflexivity.
Defined.

Lemma ids_without_gaps_witness :
  created_ids (run 32 decodeTable map_to_list mixedCalls initial).2 = [1; 2].
Proof.
  apply (ids_without_gaps 32 decodeTable map_to_list mixedCalls).
  - by left.
  - by vm_compute.
Defined.

Lemma creates_keep_every_record_witness :
  size (books (run 64 decodeTable map_to_list
                 (creates ["{}"; sampleBody]%string) initial).1) = 2%nat ∧
  books (run 64 decodeTable map_to_list
           (creates ["{}"; sampleBody]%string) initial).1 !! 2 =
    Some {| ID := 2; Title := "Emma"; Author := "Austen" |}.
Proof.
  destruct (creates_keep_every_record 64 decodeTable map_to_list
              ["{}"; sampleBody]%string) as [Hsize Hrecord].
  - by right.
  - repeat constructor; by eexists.
  - by vm_compute.
  - split; [exact Hsize|]. exact (Hrecord 1%nat sampleBody _ eq_refl eq_refl).
Defined.

Lemma GetBook_answers_the_id_asked_witness :
  Atoi 64 "2" = Some 2 ∧
  ((books (run 64 decodeTable map_to_list mixedCalls initial).1 !! 2 = None ∧
    GetBook 64 newResponseWriter (request MethodGet (bookPath "2") "")
      (run 64 decodeTable map_to_list mixedCalls initial).1 =
      ((run 64 decodeTable map_to_list mixedCalls initial).1,
       Returned (errorResponse StatusNotFound "Book not found"))) ∨
   (∃ title author,
      books (run 64 decodeTable map_to_list mixedCalls initial).1 !! 2 =
        Some {| ID := 2; Title := title; Author := author |} ∧
      GetBook 64 newResponseWriter (request MethodGet (bookPath "2") "")
        (run 64 decodeTable map_to_list mixedCalls initial).1 =
        ((run 64 decodeTable map_to_list mixedCalls initial).1,
         Returned (jsonResponse StatusOK
                     (JObj [("id", JNum 2); ("title", JStr title);
                            ("author", JStr author)]%string))))).
Proof.
  split; [reflexivity|].
  exact (GetBook_answers_the_id_asked 64 decodeTable map_to_list mixedCalls
           MethodGet "2" "" 2 eq_refl).
Defined.

Lemma GetBooks_lists_each_record_once_witness :
  ∃ l,
    GetBooks map_to_list newResponseWriter (request MethodGet "/books" "")
      (run 64 decodeTable map_to_list mixedCalls initial).1 =
      ((run 64 decodeTable map_to_list mixedCalls initial).1,
       Returned (jsonResponse StatusOK (JArr (map marshalBook l)))) ∧
    length l = size (books (run 64 decodeTable map_to_list mixedCalls initial).1) ∧
    NoDup (ID <$> l) ∧
    (∀ b, b ∈ l ↔ books (run 64 decodeTable map_to_list mixedCalls initial).1 !! ID b = Some b).
Proof.
  apply (GetBooks_lists_each_record_once 64 decodeTable map_to_list).
  - intros m. reflexivity.
  - intros Hempty. apply (f_equal (lookup 2)) in Hempty. discriminate Hempty.
Defined.
